(** * The vendored libc headers <assert.h> (any-macos-any) and <fts.h>
    (generic-netbsd), embedded in Rocq.

    <assert.h> is a sequence of preprocessor directives that rewrites the
    macro table of the translation unit; it is embedded as a function on
    macro tables ([AssertH.assert_h]), together with the expansion of an
    [assert(e)] invocation and an evaluator for the C expressions its
    replacement lists are made of.

    <fts.h> declares constants, two structures and five prototypes; they
    are embedded as the values, field lists and declarations the header
    gives a translation unit ([Fts]). *)

From Stdlib Require Import ZArith Lia.
From stdpp Require Import gmap strings list.

(** ** C expressions of the macro replacement lists *)

Module CExp.

(** The expression forms that occur in the replacement lists of
    <assert.h>.  [EId x] is an identifier token: a macro parameter, a macro
    name, or a predefined identifier.  [EStringize x] is [#x].  [EArg src]
    is the expression the caller wrote as the macro argument, kept by its
    source text. *)
Inductive cexp : Type :=
| EEmpty
| EInt (n : Z)
| EStr (s : string)
| EId (x : string)
| EStringize (x : string)
| EArg (src : string)
| ECastVoid (a : cexp)
| ENot (a : cexp)
| ECond (c a b : cexp)
| ECall (f : string) (args : cargs)
with cargs : Type :=
| ANil
| ACons (a : cexp) (rest : cargs).

Notation "'args[' x ; .. ; y ']'" := (ACons x .. (ACons y ANil) ..)
  (at level 0, x at level 99, y at level 99).

(** A macro definition: object-like, or function-like with one parameter
    (the only arity <assert.h> defines). *)
Inductive macro : Type :=
| MObj (body : cexp)
| MFun (param : string) (body : cexp).

Fixpoint cexp_eq_dec (x y : cexp) {struct x} : {x = y} + {x <> y}
with cargs_eq_dec (x y : cargs) {struct x} : {x = y} + {x <> y}.
Proof.
  - decide equality;
      first [apply Z.eq_dec | apply String.string_dec | apply cargs_eq_dec].
  - decide equality.
Defined.

#[global] Instance cexp_eqdec : EqDecision cexp := cexp_eq_dec.
#[global] Instance cargs_eqdec : EqDecision cargs := cargs_eq_dec.
#[global] Instance macro_eqdec : EqDecision macro.
Proof. solve_decision. Defined.

End CExp.
Export CExp.

(** ** The preprocessor's macro table *)

Module Cpp.

(** [#ifdef x] *)
Definition defined (x : string) (t : gmap string macro) : bool :=
  match t !! x with
  | Some _ => true
  | None => false
  end.

(** [#undef x]: no effect when [x] is not defined. *)
Definition pp_undef (x : string) (t : gmap string macro) : gmap string macro :=
  delete x t.

(** [#define x ...]: a macro that is already defined may only be defined
    again with the same parameter and replacement list (C11 6.10.3p2);
    any other redefinition is a constraint violation, [None].  (A
    compiler may only warn about it and go on with the new definition;
    the properties below concern definitions that are fresh or the
    same.) *)
Definition pp_define (x : string) (m : macro) (t : gmap string macro)
  : option (gmap string macro) :=
  match t !! x with
  | None => Some (<[x := m]> t)
  | Some m' => if decide (m' = m) then Some t else None
  end.

(** [#if x] for a single identifier [x]: an identifier that is not an
    object-like macro counts as 0; an integer constant is tested against
    0; an empty replacement list is an error.  Replacement lists that are
    not a single integer constant are outside this model ([None]). *)
Definition pp_if (x : string) (t : gmap string macro) : option bool :=
  match t !! x with
  | None => Some false
  | Some (MFun _ _) => Some false
  | Some (MObj (EInt n)) => Some (negb (n =? 0)%Z)
  | Some (MObj _) => None
  end.

(** Argument substitution in the replacement list of a function-like
    macro with parameter [p]: the parameter stands for the argument, [#p]
    for its spelling as a string literal. *)
Fixpoint subst (p arg : string) (b : cexp) : cexp :=
  match b with
  | EId x => if decide (x = p) then EArg arg else EId x
  | EStringize x => if decide (x = p) then EStr arg else EStringize x
  | ECastVoid a => ECastVoid (subst p arg a)
  | ENot a => ENot (subst p arg a)
  | ECond c a b' => ECond (subst p arg c) (subst p arg a) (subst p arg b')
  | ECall f args => ECall f (subst_args p arg args)
  | EEmpty | EInt _ | EStr _ | EArg _ => b
  end
with subst_args (p arg : string) (l : cargs) : cargs :=
  match l with
  | ANil => ANil
  | ACons a rest => ACons (subst p arg a) (subst_args p arg rest)
  end.

(** The names the compiler itself gives a meaning at every place of the
    source: the macros [__FILE__] and [__LINE__] (C11 6.10.8), clang's
    [__FILE_NAME__], and the identifier [__func__].  A program may not
    define them; where one of them is an entry of the table (as
    [__FILE_NAME__] is under clang, so that [#ifdef] sees it), the entry's
    replacement list is not used. *)
Definition predefined_names : list string :=
  ["__FILE__"; "__FILE_NAME__"; "__LINE__"; "__func__"].

(** Rescanning of a substituted replacement list: an identifier that names
    an object-like macro is replaced by that macro's replacement list.
    One level is what <assert.h> needs ([__ASSERT_FILE_NAME] stands for a
    predefined macro); the argument itself and the routines called
    ([__assert], [__assert_rtn], [__builtin_expect], which <assert.h>
    takes from <_assert.h> and the compiler) are left as they are. *)
Definition expand_id (t : gmap string macro) (x : string) : cexp :=
  if decide (x ∈ predefined_names) then EId x
  else match t !! x with
       | Some (MObj body) => body
       | _ => EId x
       end.

Fixpoint rescan (t : gmap string macro) (b : cexp) : cexp :=
  match b with
  | EId x => expand_id t x
  | ECastVoid a => ECastVoid (rescan t a)
  | ENot a => ENot (rescan t a)
  | ECond c a b' => ECond (rescan t c) (rescan t a) (rescan t b')
  | ECall f args => ECall f (rescan_args t args)
  | EEmpty | EInt _ | EStr _ | EStringize _ | EArg _ => b
  end
with rescan_args (t : gmap string macro) (l : cargs) : cargs :=
  match l with
  | ANil => ANil
  | ACons a rest => ACons (rescan t a) (rescan_args t rest)
  end.

(** The expansion of the invocation [x(arg)] under the table [t]. *)
Definition expand_call (t : gmap string macro) (x arg : string) : option cexp :=
  match t !! x with
  | Some (MFun p body) => Some (rescan t (subst p arg body))
  | _ => None
  end.

End Cpp.
Export Cpp.

(** ** <assert.h> *)

Module AssertH.

(** Line 55: [#define assert(e) ((void)0)]. *)
Definition assert_NDEBUG : macro :=
  MFun "e" (ECastVoid (EInt 0)).

(** Lines 68-69: the definition for compilers other than GNU C. *)
Definition assert_plain : macro :=
  MFun "e"
    (ECastVoid
       (ECond (EId "e")
          (ECastVoid (EInt 0))
          (ECall "__assert"
             args[EStringize "e"; EId "__ASSERT_FILE_NAME"; EId "__LINE__"]))).

(** Lines 74-75: GNU C with [__DARWIN_UNIX03] nonzero. *)
Definition assert_gnuc_unix03 : macro :=
  MFun "e"
    (ECond (ECall "__builtin_expect" args[ENot (EId "e"); EInt 0])
       (ECall "__assert_rtn"
          args[EId "__func__"; EId "__ASSERT_FILE_NAME"; EId "__LINE__";
               EStringize "e"])
       (ECastVoid (EInt 0))).

(** Lines 77-78: GNU C otherwise. *)
Definition assert_gnuc : macro :=
  MFun "e"
    (ECond (ECall "__builtin_expect" args[ENot (EId "e"); EInt 0])
       (ECall "__assert"
          args[EStringize "e"; EId "__ASSERT_FILE_NAME"; EId "__LINE__"])
       (ECastVoid (EInt 0))).

(** Lines 60-64: the replacement list of [__ASSERT_FILE_NAME]. *)
Definition assert_file_name_macro (t : gmap string macro) : macro :=
  if defined "__FILE_NAME__" t then MObj (EId "__FILE_NAME__")
  else MObj (EId "__FILE__").

(** One inclusion of <assert.h> with the macro table [t] in force.  The
    headers it includes in turn (<sys/cdefs.h>, <stdlib.h> under C++,
    <_assert.h>, <_static_assert.h>) are not part of this repository; they
    are taken to leave the macros named here alone.  There is no include
    guard: every inclusion runs all of it. *)
Definition assert_h (t : gmap string macro) : option (gmap string macro) :=
  let t := pp_undef "assert" t in
  if defined "NDEBUG" t then
    pp_define "assert" assert_NDEBUG t
  else
    t ← pp_define "__ASSERT_FILE_NAME" (assert_file_name_macro t) t;
    if negb (defined "__GNUC__" t) then
      pp_define "assert" assert_plain t
    else
      unix03 ← pp_if "__DARWIN_UNIX03" t;
      if unix03 : bool then pp_define "assert" assert_gnuc_unix03 t
      else pp_define "assert" assert_gnuc t.

(** Which of the three definitions of lines 66-81 the compiler's macros
    [__GNUC__] and [__DARWIN_UNIX03] select. *)
Definition assert_enabled (t : gmap string macro) : macro :=
  if negb (defined "__GNUC__" t) then assert_plain
  else match pp_if "__DARWIN_UNIX03" t with
       | Some true => assert_gnuc_unix03
       | _ => assert_gnuc
       end.

(** The string [__ASSERT_FILE_NAME] stands for at [loc]. *)
Definition assert_file_name (t : gmap string macro) (file file_name : string)
  : string :=
  if defined "__FILE_NAME__" t then file_name else file.

(** A translation unit, as far as <assert.h> is concerned: it defines or
    undefines [NDEBUG] and includes the header, in any order and any number
    of times.  [DefineNDEBUG body] is [#define NDEBUG body] (or
    [-DNDEBUG=body] before the first line), after which [NDEBUG] is
    defined as [body]; where an earlier definition differs a compiler
    warns and goes on with the new one, and the header reads only whether
    [NDEBUG] is defined. *)
Inductive directive : Type :=
| DefineNDEBUG (body : cexp)
| UndefNDEBUG
| IncludeAssert.

Definition directive_run (d : directive) (t : gmap string macro)
  : option (gmap string macro) :=
  match d with
  | DefineNDEBUG body => Some (<["NDEBUG" := MObj body]> t)
  | UndefNDEBUG => Some (pp_undef "NDEBUG" t)
  | IncludeAssert => assert_h t
  end.

Fixpoint unit_run (ds : list directive) (t : gmap string macro)
  : option (gmap string macro) :=
  match ds with
  | [] => Some t
  | d :: ds' => t' ← directive_run d t; unit_run ds' t'
  end.

(** [t] differs from [t0] at most in the macros a translation unit of
    these directives writes: the compiler's macros are the same. *)
Definition same_compiler (t0 t : gmap string macro) : Prop :=
  ∀ y, y ≠ "assert" → y ≠ "__ASSERT_FILE_NAME" → y ≠ "NDEBUG" →
       t !! y = t0 !! y.

End AssertH.
Export AssertH.

(** ** Evaluation of an expanded [assert] invocation *)

Module CEval.

Inductive value : Type :=
| VInt (n : Z)
| VStr (s : string)
| VVoid.

(** What an evaluation is observed to do: evaluate the caller's argument
    expression, or call a failure routine. *)
Inductive event : Type :=
| EvEval (src : string)
| EvCall (f : string) (args : list value).

#[global] Instance value_eqdec : EqDecision value.
Proof. solve_decision. Defined.
#[global] Instance event_eqdec : EqDecision event.
Proof. solve_decision. Defined.

(** The place of the invocation: what [__FILE__], [__FILE_NAME__] (the
    last component of the path, where the compiler provides it),
    [__LINE__] and [__func__] stand for there. *)
Record srcloc : Type := SrcLoc {
  loc_FILE : string;
  loc_FILE_NAME : string;
  loc_LINE : Z;
  loc_func : string
}.

Definition predefined (loc : srcloc) (x : string) : option value :=
  if decide (x = "__FILE__") then Some (VStr (loc_FILE loc))
  else if decide (x = "__FILE_NAME__") then Some (VStr (loc_FILE_NAME loc))
  else if decide (x = "__LINE__") then Some (VInt (loc_LINE loc))
  else if decide (x = "__func__") then Some (VStr (loc_func loc))
  else None.

(** The controlling value of [?:] and the operand of [!] are scalars;
    a string literal is a non-null pointer. *)
Definition truth (v : value) : option bool :=
  match v with
  | VInt n => Some (negb (n =? 0)%Z)
  | VStr _ => Some true
  | VVoid => None
  end.

Section Eval.

(** The program state, and the meaning of the caller's argument
    expressions: the scalar an expression yields and the state its side
    effects leave. *)
Variable St : Type.
Variable den : string -> St -> Z * St.
Variable loc : srcloc.

(** The outcome of evaluating an expression: a value, the process
    terminated by a failure routine, or an expression that has no meaning
    in this model. *)
Inductive result (A : Type) : Type :=
| Done (a : A) (s : St) (tr : list event)
| Terminated (s : St) (tr : list event)
| Wrong.
Arguments Done {A} a s tr.
Arguments Terminated {A} s tr.
Arguments Wrong {A}.

Definition M (A : Type) : Type := St -> list event -> result A.

Definition ret {A} (a : A) : M A := fun s tr => Done a s tr.

Definition bind {A B} (m : M A) (k : A -> M B) : M B :=
  fun s tr =>
    match m s tr with
    | Done a s' tr' => k a s' tr'
    | Terminated s' tr' => Terminated s' tr'
    | Wrong => Wrong
    end.

Definition wrong {A} : M A := fun _ _ => Wrong.

Notation "x <- m ;; k" := (bind m (fun x => k))
  (at level 100, m at next level, right associativity).

(** Modelled from the spec: the failure routines [__assert] and
    [__assert_rtn] are declared in <_assert.h>, which is not part of this
    repository; the spec calls them process-terminating.  A call is
    recorded with its arguments and ends the evaluation.
    [__builtin_expect] is the compiler's: it yields its first argument. *)
Definition call (f : string) (vs : list value) : M value :=
  if decide (f = "__builtin_expect") then
    match vs with
    | [v; _] => ret v
    | _ => wrong
    end
  else if decide (f = "__assert") then
    match vs with
    | [_; _; _] => fun s tr => Terminated s (tr ++ [EvCall f vs])
    | _ => wrong
    end
  else if decide (f = "__assert_rtn") then
    match vs with
    | [_; _; _; _] => fun s tr => Terminated s (tr ++ [EvCall f vs])
    | _ => wrong
    end
  else wrong.

Fixpoint eval (x : cexp) : M value :=
  match x with
  | EEmpty => wrong
  | EInt n => ret (VInt n)
  | EStr s => ret (VStr s)
  | EId y => match predefined loc y with
             | Some v => ret v
             | None => wrong
             end
  | EStringize _ => wrong
  | EArg src => fun s tr =>
      let '(n, s') := den src s in Done (VInt n) s' (tr ++ [EvEval src])
  | ECastVoid a => _ <- eval a ;; ret VVoid
  | ENot a =>
      v <- eval a ;;
      match truth v with
      | Some b => ret (VInt (if b then 0 else 1))
      | None => wrong
      end
  | ECond c a b =>
      v <- eval c ;;
      match truth v with
      | Some true => eval a
      | Some false => eval b
      | None => wrong
      end
  | ECall f args => vs <- eval_args args ;; call f vs
  end
with eval_args (l : cargs) : M (list value) :=
  match l with
  | ANil => ret []
  | ACons a rest => v <- eval a ;; vs <- eval_args rest ;; ret (v :: vs)
  end.

(** [assert(arg)] written at [loc], under the macro table [t], run from
    the state [s]. *)
Definition run_assert (t : gmap string macro) (arg : string) (s : St)
  : result value :=
  match expand_call t "assert" arg with
  | Some x => eval x s []
  | None => Wrong
  end.

(** How often the trace evaluates the argument expression [src]. *)
Definition evaluations (src : string) (tr : list event) : nat :=
  length (filter (fun ev => ev = EvEval src) tr).

End Eval.

Arguments Done {St A} a s tr.
Arguments Terminated {St A} s tr.
Arguments Wrong {St A}.

End CEval.
Export CEval.

(** ** <fts.h> *)

Module Fts.

Local Open Scope Z_scope.

(** C types, as far as the header writes them. *)
#[warnings="-register-all"] Inductive ctype : Type :=
| TVoid
| TChar
| TInt
| TUInt
| TUShort
| TNamed (name : string)
| TStruct (tag : string)
| TConst (t : ctype)
| TPtr (t : ctype)
| TArray (t : ctype) (n : nat)
| TFun (ret : ctype) (params : list ctype).

(** The values of the integer types (int and unsigned int of 32 bits,
    short of 16, as on every NetBSD port). *)
Definition ctype_range (t : ctype) : option (Z * Z) :=
  match t with
  | TInt => Some (- 2 ^ 31, 2 ^ 31 - 1)
  | TUInt => Some (0, 2 ^ 32 - 1)
  | TUShort => Some (0, 2 ^ 16 - 1)
  | _ => None
  end.

Definition in_range (t : ctype) (n : Z) : bool :=
  match ctype_range t with
  | Some (lo, hi) => (lo <=? n) && (n <=? hi)
  | None => false
  end.


(** What is fixed before the header is read: the type macros
    [__fts_stat_t], ..., [__fts_level_t] that are already defined, and
    whether [__LIBC12_SOURCE__] is. *)
Record config : Type := Config {
  cfg_types : gmap string ctype;
  cfg_LIBC12_SOURCE : bool
}.

(** Lines 37-57: [#ifndef x] / [#define x d] / [#endif]. *)
Definition ifndef_define (cfg : config) (x : string) (d : ctype) : ctype :=
  match cfg_types cfg !! x with
  | Some t => t
  | None => d
  end.

Definition fts_stat_t cfg := ifndef_define cfg "__fts_stat_t" (TStruct "stat").
Definition fts_nlink_t cfg := ifndef_define cfg "__fts_nlink_t" (TNamed "nlink_t").
Definition fts_ino_t cfg := ifndef_define cfg "__fts_ino_t" (TNamed "ino_t").
Definition fts_length_t cfg := ifndef_define cfg "__fts_length_t" TUInt.
Definition fts_number_t cfg := ifndef_define cfg "__fts_number_t" (TNamed "int64_t").
Definition fts_dev_t cfg := ifndef_define cfg "__fts_dev_t" (TNamed "dev_t").
Definition fts_level_t cfg := ifndef_define cfg "__fts_level_t" TInt.

(** Lines 71-82: the bits of [fts_options]. *)
Definition FTS_COMFOLLOW : Z := 0x001.
Definition FTS_LOGICAL : Z := 0x002.
Definition FTS_NOCHDIR : Z := 0x004.
Definition FTS_NOSTAT : Z := 0x008.
Definition FTS_PHYSICAL : Z := 0x010.
Definition FTS_SEEDOT : Z := 0x020.
Definition FTS_XDEV : Z := 0x040.
Definition FTS_WHITEOUT : Z := 0x080.
Definition FTS_OPTIONMASK : Z := 0x0ff.
Definition FTS_NAMEONLY : Z := 0x100.
Definition FTS_STOP : Z := 0x200.

(** Lines 103-104. *)
Definition FTS_ROOTPARENTLEVEL : Z := -1.
Definition FTS_ROOTLEVEL : Z := 0.

(** Lines 107-120: the values of [fts_info]. *)
Definition FTS_D : Z := 1.
Definition FTS_DC : Z := 2.
Definition FTS_DEFAULT : Z := 3.
Definition FTS_DNR : Z := 4.
Definition FTS_DOT : Z := 5.
Definition FTS_DP : Z := 6.
Definition FTS_ERR : Z := 7.
Definition FTS_F : Z := 8.
Definition FTS_INIT : Z := 9.
Definition FTS_NS : Z := 10.
Definition FTS_NSOK : Z := 11.
Definition FTS_SL : Z := 12.
Definition FTS_SLNONE : Z := 13.
Definition FTS_W : Z := 14.

(** Lines 123-125: the bits of [fts_flags]. *)
Definition FTS_DONTCHDIR : Z := 0x01.
Definition FTS_SYMFOLLOW : Z := 0x02.
Definition FTS_ISW : Z := 0x04.

(** Lines 128-131: the values of [fts_instr]. *)
Definition FTS_AGAIN : Z := 1.
Definition FTS_FOLLOW : Z := 2.
Definition FTS_NOINSTR : Z := 3.
Definition FTS_SKIP : Z := 4.

(** The option bits up to the mask, in the order of the header, under
    their names. *)
Definition option_flags : list (string * Z) :=
  [ ("FTS_COMFOLLOW", FTS_COMFOLLOW); ("FTS_LOGICAL", FTS_LOGICAL);
    ("FTS_NOCHDIR", FTS_NOCHDIR); ("FTS_NOSTAT", FTS_NOSTAT);
    ("FTS_PHYSICAL", FTS_PHYSICAL); ("FTS_SEEDOT", FTS_SEEDOT);
    ("FTS_XDEV", FTS_XDEV); ("FTS_WHITEOUT", FTS_WHITEOUT) ].

(** The two bits the header marks (private). *)
Definition private_flags : list (string * Z) :=
  [ ("FTS_NAMEONLY", FTS_NAMEONLY); ("FTS_STOP", FTS_STOP) ].

(** The values of [fts_info], in the order of the header, under their
    names. *)
Definition info_values : list (string * Z) :=
  [ ("FTS_D", FTS_D); ("FTS_DC", FTS_DC); ("FTS_DEFAULT", FTS_DEFAULT);
    ("FTS_DNR", FTS_DNR); ("FTS_DOT", FTS_DOT); ("FTS_DP", FTS_DP);
    ("FTS_ERR", FTS_ERR); ("FTS_F", FTS_F); ("FTS_INIT", FTS_INIT);
    ("FTS_NS", FTS_NS); ("FTS_NSOK", FTS_NSOK); ("FTS_SL", FTS_SL);
    ("FTS_SLNONE", FTS_SLNONE); ("FTS_W", FTS_W) ].

(** An options word built from a set of flags: their bitwise OR. *)
Definition or_flags (fs : list Z) : Z := foldr Z.lor 0 fs.

(** An options word within the valid user option mask. *)
Definition valid_options (w : Z) : Prop := Z.land w FTS_OPTIONMASK = w.

(** Lines 68-69 and 145: the comparator, a pointer to a function of two
    [const T **] that returns int. *)
Definition compar_t (ent : ctype) : ctype :=
  TPtr (TFun TInt [TPtr (TPtr (TConst ent)); TPtr (TPtr (TConst ent))]).

(** Lines 59-84: the members of [FTS]. *)
Definition FTS_members : list (string * ctype) :=
  [ ("fts_cur", TPtr (TStruct "_ftsent"));
    ("fts_child", TPtr (TStruct "_ftsent"));
    ("fts_array", TPtr (TPtr (TStruct "_ftsent")));
    ("fts_dev", TNamed "dev_t");
    ("fts_path", TPtr TChar);
    ("fts_rfd", TInt);
    ("fts_pathlen", TUInt);
    ("fts_nitems", TUInt);
    ("fts_compar", compar_t (TStruct "_ftsent"));
    ("fts_options", TInt) ].

(** Lines 86-136: the members of [FTSENT]. *)
Definition FTSENT_members (cfg : config) : list (string * ctype) :=
  [ ("fts_cycle", TPtr (TStruct "_ftsent"));
    ("fts_parent", TPtr (TStruct "_ftsent"));
    ("fts_link", TPtr (TStruct "_ftsent"));
    ("fts_number", fts_number_t cfg);
    ("fts_pointer", TPtr TVoid);
    ("fts_accpath", TPtr TChar);
    ("fts_path", TPtr TChar);
    ("fts_errno", TInt);
    ("fts_symfd", TInt);
    ("fts_pathlen", fts_length_t cfg);
    ("fts_namelen", fts_length_t cfg);
    ("fts_ino", fts_ino_t cfg);
    ("fts_dev", fts_dev_t cfg);
    ("fts_nlink", fts_nlink_t cfg);
    ("fts_level", fts_level_t cfg);
    ("fts_info", TUShort);
    ("fts_flags", TUShort);
    ("fts_instr", TUShort);
    ("fts_statp", TPtr (fts_stat_t cfg));
    ("fts_name", TArray TChar 1) ].

(** The members the specification names as the per-node data of an
    entry: inode number, device number, link count, the path strings and
    their recorded lengths, the depth and the node kind. *)
Definition per_node_members : list string :=
  [ "fts_ino"; "fts_dev"; "fts_nlink"; "fts_path"; "fts_accpath";
    "fts_name"; "fts_pathlen"; "fts_namelen"; "fts_level"; "fts_info" ].

(** The type of a member, by name (the first of that name). *)
Fixpoint member (x : string) (ms : list (string * ctype)) : option ctype :=
  match ms with
  | [] => None
  | (y, t) :: ms' => if decide (y = x) then Some t else member x ms'
  end.

(** External declarations: a structure type under a typedef name, the
    prototype of a function with the symbol [__RENAME] binds it to, or the
    definition of a function with its body. *)
Inductive decl : Type :=
| DTypedefStruct (name : string) (tag : option string)
                 (members : list (string * ctype))
| DProto (name : string) (ret : ctype) (params : list ctype) (symbol : string)
| DFunDef (name : string) (ret : ctype) (params : list ctype)
          (body : list cexp).

(** Lines 141-148, read when [__LIBC12_SOURCE__] is not defined. *)
Definition fts_prototypes : list decl :=
  [ DProto "fts_children" (TPtr (TNamed "FTSENT"))
      [TPtr (TNamed "FTS"); TInt] "__fts_children60";
    DProto "fts_close" TInt [TPtr (TNamed "FTS")] "__fts_close60";
    DProto "fts_open" (TPtr (TNamed "FTS"))
      [TPtr (TConst (TPtr TChar)); TInt; compar_t (TNamed "FTSENT")]
      "__fts_open60";
    DProto "fts_read" (TPtr (TNamed "FTSENT")) [TPtr (TNamed "FTS")]
      "__fts_read60";
    DProto "fts_set" TInt [TPtr (TNamed "FTS"); TPtr (TNamed "FTSENT"); TInt]
      "__fts_set60" ].

(** The declarations a translation unit gets from <fts.h>.  The include
    guard [_FTS_H_] makes a repeated inclusion read nothing, so this is
    also what any number of inclusions give. *)
Definition fts_h (cfg : config) : list decl :=
  [ DTypedefStruct "FTS" None FTS_members;
    DTypedefStruct "FTSENT" (Some "_ftsent") (FTSENT_members cfg) ]
  ++ (if cfg_LIBC12_SOURCE cfg then [] else fts_prototypes).

(** The functions a list of declarations declares or defines. *)
Definition function_name (d : decl) : option string :=
  match d with
  | DProto name _ _ _ => Some name
  | DFunDef name _ _ _ => Some name
  | DTypedefStruct _ _ _ => None
  end.

Definition functions (ds : list decl) : list string := omap function_name ds.


(** The declaration of the function [x] in [ds]: its result type and its
    parameter types. *)
Fixpoint signature (x : string) (ds : list decl)
  : option (ctype * list ctype) :=
  match ds with
  | [] => None
  | DProto name ret params _ :: ds'
  | DFunDef name ret params _ :: ds' =>
      if decide (name = x) then Some (ret, params) else signature x ds'
  | _ :: ds' => signature x ds'
  end.

(** The members of the structure with the typedef name [x] in [ds]. *)
Fixpoint members_of (x : string) (ds : list decl)
  : option (list (string * ctype)) :=
  match ds with
  | [] => None
  | DTypedefStruct name _ ms :: ds' =>
      if decide (name = x) then Some ms else members_of x ds'
  | _ :: ds' => members_of x ds'
  end.

End Fts.
Export Fts.

(** ** A translation unit that includes <fts.h> *)

Module FtsUnit.

Local Open Scope Z_scope.

(** Lines 37-57: the seven type macros and the types they get when they
    are not defined yet, in the order of the header. *)
Definition type_macro_defaults : list (string * ctype) :=
  [ ("__fts_stat_t", TStruct "stat");
    ("__fts_nlink_t", TNamed "nlink_t");
    ("__fts_ino_t", TNamed "ino_t");
    ("__fts_length_t", TUInt);
    ("__fts_number_t", TNamed "int64_t");
    ("__fts_dev_t", TNamed "dev_t");
    ("__fts_level_t", TInt) ].

(** [#ifndef x] / [#define x d] / [#endif] on the table of type macros. *)
Definition ifndef_define_in (tm : gmap string ctype) (xd : string * ctype)
  : gmap string ctype :=
  match tm !! xd.1 with
  | Some _ => tm
  | None => <[xd.1 := xd.2]> tm
  end.

Definition define_type_macros (tm : gmap string ctype) : gmap string ctype :=
  foldl ifndef_define_in tm type_macro_defaults.

(** The macros with an integer value that the header defines, in its
    order: lines 71-82, 103-104, 107-120, 123-125 and 128-131. *)
Definition fts_constants : list (string * Z) :=
  option_flags ++ [("FTS_OPTIONMASK", FTS_OPTIONMASK)] ++ private_flags
  ++ [ ("FTS_ROOTPARENTLEVEL", FTS_ROOTPARENTLEVEL);
       ("FTS_ROOTLEVEL", FTS_ROOTLEVEL) ]
  ++ info_values
  ++ [ ("FTS_DONTCHDIR", FTS_DONTCHDIR); ("FTS_SYMFOLLOW", FTS_SYMFOLLOW);
       ("FTS_ISW", FTS_ISW) ]
  ++ [ ("FTS_AGAIN", FTS_AGAIN); ("FTS_FOLLOW", FTS_FOLLOW);
       ("FTS_NOINSTR", FTS_NOINSTR); ("FTS_SKIP", FTS_SKIP) ].

(** The [#define]s of a list of such macros, one after the other. *)
Fixpoint define_constants (cs : list (string * Z)) (t : gmap string macro)
  : option (gmap string macro) :=
  match cs with
  | [] => Some t
  | (x, n) :: cs' => t' ← pp_define x (MObj (EInt n)) t; define_constants cs' t'
  end.

(** A translation unit: the macros defined so far, the type macros
    defined so far (their replacement lists are types), and the
    declarations read so far. *)
Record tunit : Type := TUnit {
  tu_macros : gmap string macro;
  tu_types : gmap string ctype;
  tu_decls : list decl
}.

(** One inclusion of <fts.h>.  Lines 34-35 and 151 guard all of it with
    [_FTS_H_]; inside, the type macros get their defaults, the constants
    are defined, and the declarations are read with the type macros and
    [__LIBC12_SOURCE__] as they are then.  <sys/cdefs.h>, included on line
    138, is not part of this repository and what it defines is not in
    the table. *)
Definition fts_h_include (u : tunit) : option tunit :=
  if defined "_FTS_H_" (tu_macros u) then Some u
  else
    t ← pp_define "_FTS_H_" (MObj EEmpty) (tu_macros u);
    let tm := define_type_macros (tu_types u) in
    t' ← define_constants fts_constants t;
    Some (TUnit t' tm
            (tu_decls u
             ++ fts_h (Config tm (defined "__LIBC12_SOURCE__" (tu_macros u))))).

(** The typedef names a type is written with. *)
Fixpoint typedef_names (t : ctype) : list string :=
  match t with
  | TNamed n => [n]
  | TConst t' | TPtr t' | TArray t' _ => typedef_names t'
  | TFun ret params =>
      typedef_names ret
      ++ (fix go (ps : list ctype) : list string :=
            match ps with
            | [] => []
            | p :: ps' => typedef_names p ++ go ps'
            end) params
  | TVoid | TChar | TInt | TUInt | TUShort | TStruct _ => []
  end.

(** The types a declaration is written with, and the typedef name it
    declares. *)
Definition decl_types (d : decl) : list ctype :=
  match d with
  | DTypedefStruct _ _ ms => map snd ms
  | DProto _ ret params _ | DFunDef _ ret params _ => ret :: params
  end.

Definition decl_typedef (d : decl) : option string :=
  match d with
  | DTypedefStruct name _ _ => Some name
  | _ => None
  end.

(** The typedef names that declarations use before any of them has
    declared it ([declared] being declared already): the names their
    includer has to provide.  A typedef name is declared at the end of its
    declaration. *)
Fixpoint external_typedefs (declared : list string) (ds : list decl)
  : list string :=
  match ds with
  | [] => []
  | d :: ds' =>
      filter (λ x, x ∉ declared) (concat (map typedef_names (decl_types d)))
      ++ external_typedefs
           (match decl_typedef d with
            | Some name => name :: declared
            | None => declared
            end) ds'
  end.

(** The structure tag a typedef name of [ds] stands for. *)
Fixpoint typedef_tag (x : string) (ds : list decl) : option string :=
  match ds with
  | [] => None
  | DTypedefStruct name tag _ :: ds' =>
      if decide (name = x) then tag else typedef_tag x ds'
  | _ :: ds' => typedef_tag x ds'
  end.

(** A type with the typedef names of tagged structures of [ds] replaced
    by the structure types. *)
Fixpoint resolve (ds : list decl) (t : ctype) : ctype :=
  match t with
  | TNamed n => match typedef_tag n ds with
                | Some tag => TStruct tag
                | None => TNamed n
                end
  | TConst t' => TConst (resolve ds t')
  | TPtr t' => TPtr (resolve ds t')
  | TArray t' n => TArray (resolve ds t') n
  | TFun ret params => TFun (resolve ds ret) (map (resolve ds) params)
  | TVoid | TChar | TInt | TUInt | TUShort | TStruct _ => t
  end.

(** The symbol a prototype of [ds] binds the function [x] to. *)
Fixpoint symbol (x : string) (ds : list decl) : option string :=
  match ds with
  | [] => None
  | DProto name _ _ sym :: ds' =>
      if decide (name = x) then Some sym else symbol x ds'
  | _ :: ds' => symbol x ds'
  end.

End FtsUnit.
Export FtsUnit.

(** * Properties of <assert.h> *)

Section AssertFacts.

Implicit Types (t : gmap string macro) (x : string) (m : macro).

Lemma defined_true t x : defined x t = true ↔ is_Some (t !! x).
Proof.
  unfold defined. destruct (t !! x) as [m|]; split; intros H;
    [by exists m | done | done | by destruct H].
Qed.


Lemma defined_undef_ne t x y : x ≠ y → defined y (pp_undef x t) = defined y t.
Proof. intros H. unfold defined, pp_undef. by rewrite lookup_delete_ne. Qed.

Lemma pp_if_undef_ne t x y : x ≠ y → pp_if y (pp_undef x t) = pp_if y t.
Proof. intros H. unfold pp_if, pp_undef. by rewrite lookup_delete_ne. Qed.

(** A successful [#define] leaves the macro defined as asked, and every
    other macro as it was. *)
Lemma pp_define_Some t t' x m :
  pp_define x m t = Some t' →
  t' !! x = Some m ∧ ∀ y, y ≠ x → t' !! y = t !! y.
Proof.
  unfold pp_define. destruct (t !! x) as [m'|] eqn:E.
  - destruct (decide (m' = m)) as [->|]; [|done].
    intros [= <-]. done.
  - intros [= <-]. split; [apply lookup_insert_eq|].
    intros y Hy. by apply lookup_insert_ne.
Qed.

(** [#define] succeeds on a macro that is undefined or already defined
    the same way. *)
Lemma pp_define_is_Some t x m :
  t !! x = None ∨ t !! x = Some m → is_Some (pp_define x m t).
Proof.
  unfold pp_define. intros [-> | ->]; [by eexists|].
  rewrite decide_True by done. by eexists.
Qed.

Lemma pp_define_defined t t' x m y :
  pp_define x m t = Some t' → y ≠ x → defined y t' = defined y t.
Proof.
  intros [_ H]%pp_define_Some Hy. unfold defined. by rewrite H.
Qed.

Lemma pp_define_pp_if t t' x m y :
  pp_define x m t = Some t' → y ≠ x → pp_if y t' = pp_if y t.
Proof.
  intros [_ H]%pp_define_Some Hy. unfold pp_if. by rewrite H.
Qed.

(** What one inclusion leaves in the table. *)
Lemma assert_h_Some t t' :
  assert_h t = Some t' →
  t' !! "assert" =
    Some (if defined "NDEBUG" t then assert_NDEBUG else assert_enabled t)
  ∧ (defined "NDEBUG" t = false →
     t' !! "__ASSERT_FILE_NAME" = Some (assert_file_name_macro t))
  ∧ (defined "NDEBUG" t = true →
     t' !! "__ASSERT_FILE_NAME" = t !! "__ASSERT_FILE_NAME")
  ∧ ∀ y, y ≠ "assert" → y ≠ "__ASSERT_FILE_NAME" → t' !! y = t !! y.
Proof.
  unfold assert_h, assert_enabled, assert_file_name_macro.
  rewrite !defined_undef_ne by done.
  destruct (defined "NDEBUG" t) eqn:HN.
  - intros [H1 H2]%pp_define_Some. split; [done|]. split; [done|].
    split.
    + intros _. rewrite H2 by done. by apply lookup_delete_ne.
    + intros y Hy _. rewrite H2 by done. by apply lookup_delete_ne.
  - destruct (pp_define "__ASSERT_FILE_NAME" _ _) as [t1|] eqn:E1; [|done].
    cbn [mbind option_bind].
    pose proof (pp_define_Some _ _ _ _ E1) as [F1 F2].
    rewrite (pp_define_defined _ _ _ _ "__GNUC__" E1) by done.
    rewrite (pp_define_pp_if _ _ _ _ "__DARWIN_UNIX03" E1) by done.
    rewrite !defined_undef_ne, pp_if_undef_ne by done.
    assert (∀ m, pp_define "assert" m t1 = Some t' →
      t' !! "assert" = Some m
      ∧ (false = false → t' !! "__ASSERT_FILE_NAME" =
           Some (if defined "__FILE_NAME__" t then MObj (EId "__FILE_NAME__")
                 else MObj (EId "__FILE__")))
      ∧ (false = true → t' !! "__ASSERT_FILE_NAME" = t !! "__ASSERT_FILE_NAME")
      ∧ ∀ y, y ≠ "assert" → y ≠ "__ASSERT_FILE_NAME" → t' !! y = t !! y)
      as Hfin.
    { intros m [G1 G2]%pp_define_Some. split; [done|]. split; [|split].
      - intros _. rewrite G2 by done. done.
      - done.
      - intros y Hy1 Hy2. rewrite G2, F2 by done. by apply lookup_delete_ne. }
    destruct (defined "__GNUC__" t); cbn [negb].
    + destruct (pp_if "__DARWIN_UNIX03" t) as [[]|]; cbn [mbind option_bind];
        [apply Hfin | apply Hfin | done].
    + apply Hfin.
Qed.

Lemma assert_h_is_Some_NDEBUG t :
  defined "NDEBUG" t = true → is_Some (assert_h t).
Proof.
  intros HN. unfold assert_h. rewrite defined_undef_ne, HN by done.
  apply pp_define_is_Some. left. apply lookup_delete_eq.
Qed.

(** One inclusion succeeds when [__ASSERT_FILE_NAME] is free or as an
    earlier inclusion left it, and [#if __DARWIN_UNIX03] has a value. *)
Lemma assert_h_is_Some t :
  t !! "__ASSERT_FILE_NAME" = None
  ∨ t !! "__ASSERT_FILE_NAME" = Some (assert_file_name_macro t) →
  is_Some (pp_if "__DARWIN_UNIX03" t) →
  is_Some (assert_h t).
Proof.
  intros HF [b Hb]. unfold assert_h.
  rewrite !defined_undef_ne by done.
  destruct (defined "NDEBUG" t).
  { apply pp_define_is_Some. left. apply lookup_delete_eq. }
  destruct (pp_define_is_Some (pp_undef "assert" t) "__ASSERT_FILE_NAME"
              (assert_file_name_macro (pp_undef "assert" t))) as [t1 E1].
  { unfold assert_file_name_macro. rewrite defined_undef_ne by done.
    unfold pp_undef. rewrite lookup_delete_ne by done. exact HF. }
  rewrite E1. cbn [mbind option_bind].
  pose proof (pp_define_Some _ _ _ _ E1) as [F1 F2].
  rewrite (pp_define_defined _ _ _ _ "__GNUC__" E1) by done.
  rewrite (pp_define_pp_if _ _ _ _ "__DARWIN_UNIX03" E1) by done.
  rewrite pp_if_undef_ne, Hb by done. cbn [mbind option_bind].
  assert (t1 !! "assert" = None) as Hfree.
  { rewrite F2 by done. apply lookup_delete_eq. }
  destruct (negb _); [|destruct b]; apply pp_define_is_Some; by left.
Qed.

Lemma expand_id_file_name t b :
  t !! "__ASSERT_FILE_NAME" = Some (MObj b) →
  expand_id t "__ASSERT_FILE_NAME" = b.
Proof. intros H. unfold expand_id. rewrite H. reflexivity. Qed.

Lemma expand_assert_NDEBUG t arg :
  t !! "assert" = Some assert_NDEBUG →
  expand_call t "assert" arg = Some (ECastVoid (EInt 0)).
Proof. intros H. unfold expand_call. rewrite H. reflexivity. Qed.

Lemma expand_assert_plain t arg b :
  t !! "assert" = Some assert_plain →
  t !! "__ASSERT_FILE_NAME" = Some (MObj b) →
  expand_call t "assert" arg =
    Some (ECastVoid
            (ECond (EArg arg) (ECastVoid (EInt 0))
               (ECall "__assert" args[EStr arg; b; EId "__LINE__"]))).
Proof.
  intros H1 H2. unfold expand_call. rewrite H1.
  rewrite <- (expand_id_file_name t b H2). reflexivity.
Qed.

Lemma expand_assert_gnuc_unix03 t arg b :
  t !! "assert" = Some assert_gnuc_unix03 →
  t !! "__ASSERT_FILE_NAME" = Some (MObj b) →
  expand_call t "assert" arg =
    Some (ECond (ECall "__builtin_expect" args[ENot (EArg arg); EInt 0])
            (ECall "__assert_rtn"
               args[EId "__func__"; b; EId "__LINE__"; EStr arg])
            (ECastVoid (EInt 0))).
Proof.
  intros H1 H2. unfold expand_call. rewrite H1.
  rewrite <- (expand_id_file_name t b H2). reflexivity.
Qed.

Lemma expand_assert_gnuc t arg b :
  t !! "assert" = Some assert_gnuc →
  t !! "__ASSERT_FILE_NAME" = Some (MObj b) →
  expand_call t "assert" arg =
    Some (ECond (ECall "__builtin_expect" args[ENot (EArg arg); EInt 0])
            (ECall "__assert" args[EStr arg; b; EId "__LINE__"])
            (ECastVoid (EInt 0))).
Proof.
  intros H1 H2. unfold expand_call. rewrite H1.
  rewrite <- (expand_id_file_name t b H2). reflexivity.
Qed.

End AssertFacts.

(** Expands [assert(e)] under a table [t'] that an inclusion with [NDEBUG]
    undefined left ([Ha], [Hf] as [assert_h_Some] gives them), one goal for
    each definition of [assert] and of [__ASSERT_FILE_NAME]. *)
Ltac expand_enabled t Ha Hf :=
  unfold run_assert, assert_enabled, assert_file_name_macro,
    assert_file_name in *;
  destruct (defined "__FILE_NAME__" t);
  (destruct (defined "__GNUC__" t); cbn [negb] in Ha;
   [ destruct (pp_if "__DARWIN_UNIX03" t) as [[]|];
     [ rewrite (expand_assert_gnuc_unix03 _ _ _ Ha Hf)
     | rewrite (expand_assert_gnuc _ _ _ Ha Hf)
     | rewrite (expand_assert_gnuc _ _ _ Ha Hf) ]
   | rewrite (expand_assert_plain _ _ _ Ha Hf) ]).

Section AssertClaims.

Variable St : Type.
Variable den : string → St → Z * St.
Variable loc : srcloc.

Implicit Types (t : gmap string macro) (e : string) (s : St).

(** C1. With [NDEBUG] undefined at the inclusion, an [assert(e)] whose [e]
    evaluates to 0 evaluates [e] and then calls a failure routine, which
    ends the process: [__assert] with the text of [e], the file name and
    the line, or (GNU C with [__DARWIN_UNIX03]) [__assert_rtn] with the
    function name, the file name, the line and the text of [e].  The file
    name is what [__FILE_NAME__] stands for where it is defined, and what
    [__FILE__] stands for otherwise. *)
Theorem assert_false_calls_failure_routine t t' e s :
  defined "NDEBUG" t = false →
  assert_h t = Some t' →
  (den e s).1 = 0%Z →
  let file := assert_file_name t (loc_FILE loc) (loc_FILE_NAME loc) in
  ∃ f args,
    run_assert St den loc t' e s
      = Terminated (den e s).2 [EvEval e; EvCall f args]
    ∧ ((f = "__assert"
        ∧ args = [VStr e; VStr file; VInt (loc_LINE loc)])
       ∨ (f = "__assert_rtn"
          ∧ args = [VStr (loc_func loc); VStr file; VInt (loc_LINE loc);
                    VStr e])).
Proof.
  intros HN Hinc Hfalse file. subst file.
  destruct (assert_h_Some _ _ Hinc) as (Ha & Hf & _ & _).
  rewrite HN in Ha. specialize (Hf HN).
  destruct (den e s) as [n s'] eqn:Hd. cbn [fst snd] in *. subst n.
  expand_enabled t Ha Hf;
    cbn [eval eval_args]; unfold bind at 1 2; try unfold bind at 1 2;
    rewrite Hd; do 2 eexists; (split; [reflexivity|]); auto.
Qed.

(** C3. With [NDEBUG] undefined at the inclusion, an [assert(e)] whose [e]
    evaluates to a nonzero value evaluates [e] once and does nothing else:
    no failure routine is called, the process goes on, and the value is
    void. *)
Theorem assert_true_evaluates_once t t' e s :
  defined "NDEBUG" t = false →
  assert_h t = Some t' →
  (den e s).1 ≠ 0%Z →
  ∃ tr,
    run_assert St den loc t' e s = Done VVoid (den e s).2 tr
    ∧ tr = [EvEval e]
    ∧ evaluations e tr = 1
    ∧ ∀ f args, EvCall f args ∉ tr.
Proof.
  intros HN Hinc Htrue.
  destruct (assert_h_Some _ _ Hinc) as (Ha & Hf & _ & _).
  rewrite HN in Ha. specialize (Hf HN).
  destruct (den e s) as [n s'] eqn:Hd. cbn [fst snd] in *.
  apply Z.eqb_neq in Htrue.
  exists [EvEval e]. split; [|split; [done|split]].
  - expand_enabled t Ha Hf;
      cbn [eval eval_args]; unfold bind at 1 2; try unfold bind at 1 2;
      rewrite Hd; cbn [truth ret bind]; rewrite Htrue; reflexivity.
  - unfold evaluations. cbn [filter list_filter].
    rewrite decide_True by done. done.
  - intros f args [H|H]%elem_of_cons; [done|]. by apply elem_of_nil in H.
Qed.

(** C2. With [NDEBUG] defined at the inclusion, the inclusion succeeds and
    [assert(e)] expands to [((void)0)] whatever [e] is: its evaluation
    does not evaluate [e], leaves the state as it was and has no effect. *)
Theorem assert_NDEBUG_is_void_0 t e s :
  defined "NDEBUG" t = true →
  ∃ t',
    assert_h t = Some t'
    ∧ t' !! "assert" = Some (MFun "e" (ECastVoid (EInt 0)))
    ∧ expand_call t' "assert" e = Some (ECastVoid (EInt 0))
    ∧ run_assert St den loc t' e s = Done VVoid s []
    ∧ evaluations e [] = 0.
Proof.
  intros HN.
  destruct (assert_h_is_Some_NDEBUG t HN) as [t' Hinc]. exists t'.
  destruct (assert_h_Some _ _ Hinc) as (Ha & _). rewrite HN in Ha.
  split; [done|]. split; [done|].
  pose proof (expand_assert_NDEBUG t' e Ha) as He.
  split; [done|]. split; [|done].
  unfold run_assert. rewrite He. reflexivity.
Qed.

End AssertClaims.

(** ** Repeated inclusion *)

Section Reinclusion.

Implicit Types (t : gmap string macro) (ds : list directive).

Lemma same_compiler_refl t : same_compiler t t.
Proof. by intros y _ _ _. Qed.

Lemma same_compiler_trans t0 t1 t2 :
  same_compiler t0 t1 → same_compiler t1 t2 → same_compiler t0 t2.
Proof. intros H1 H2 y Ha Hf Hn. rewrite H2, H1; done. Qed.

Lemma same_compiler_file_name t0 t :
  same_compiler t0 t → assert_file_name_macro t = assert_file_name_macro t0.
Proof.
  intros H. unfold assert_file_name_macro, defined. by rewrite H.
Qed.

Lemma same_compiler_enabled t0 t :
  same_compiler t0 t → assert_enabled t = assert_enabled t0.
Proof.
  intros H. unfold assert_enabled, defined, pp_if. by rewrite !H.
Qed.

Lemma same_compiler_pp_if t0 t :
  same_compiler t0 t → pp_if "__DARWIN_UNIX03" t = pp_if "__DARWIN_UNIX03" t0.
Proof. intros H. unfold pp_if. by rewrite H. Qed.

Lemma unit_run_app ds1 ds2 t :
  unit_run (ds1 ++ ds2) t = unit_run ds1 t ≫= unit_run ds2.
Proof.
  revert t. induction ds1 as [|d ds1 IH]; intros t; [done|].
  cbn [app unit_run]. destruct (directive_run d t) as [t1|]; [|done].
  cbn [mbind option_bind]. apply IH.
Qed.

(** One directive succeeds and keeps the table in the shape the next
    inclusion needs. *)
Lemma directive_run_ok t0 d :
  t0 !! "__ASSERT_FILE_NAME" = None
  ∨ t0 !! "__ASSERT_FILE_NAME" = Some (assert_file_name_macro t0) →
  is_Some (pp_if "__DARWIN_UNIX03" t0) →
  ∃ t, directive_run d t0 = Some t
       ∧ same_compiler t0 t
       ∧ (t !! "__ASSERT_FILE_NAME" = None
          ∨ t !! "__ASSERT_FILE_NAME" = Some (assert_file_name_macro t0)).
Proof.
  intros HF HU. destruct d as [body| |]; cbn [directive_run].
  - exists (<["NDEBUG" := MObj body]> t0). split; [done|]. split.
    + intros y _ _ Hy. by apply lookup_insert_ne.
    + by rewrite lookup_insert_ne.
  - exists (pp_undef "NDEBUG" t0). unfold pp_undef.
    split; [done|]. split.
    + intros y _ _ Hy. by apply lookup_delete_ne.
    + by rewrite lookup_delete_ne.
  - destruct (assert_h_is_Some t0 HF HU) as [t E]. exists t.
    destruct (assert_h_Some _ _ E) as (_ & G1 & G2 & G3).
    split; [done|]. split.
    + intros y Ha Hf _. by apply G3.
    + destruct (defined "NDEBUG" t0).
      * by rewrite G2.
      * right. by apply G1.
Qed.

(** Any sequence of directives succeeds, from a table in which
    [__ASSERT_FILE_NAME] is free. *)
Lemma unit_run_ok ds : ∀ t0,
  t0 !! "__ASSERT_FILE_NAME" = None
  ∨ t0 !! "__ASSERT_FILE_NAME" = Some (assert_file_name_macro t0) →
  is_Some (pp_if "__DARWIN_UNIX03" t0) →
  ∃ t, unit_run ds t0 = Some t
       ∧ same_compiler t0 t
       ∧ (t !! "__ASSERT_FILE_NAME" = None
          ∨ t !! "__ASSERT_FILE_NAME" = Some (assert_file_name_macro t0)).
Proof.
  induction ds as [|d ds IH]; intros t0 HF HU.
  - exists t0. cbn. split; [done|]. split; [apply same_compiler_refl|done].
  - destruct (directive_run_ok t0 d HF HU) as (t1 & E1 & S1 & F1).
    destruct (IH t1) as (t & E & S & F).
    + by rewrite (same_compiler_file_name t0 t1 S1).
    + by rewrite (same_compiler_pp_if t0 t1 S1).
    + exists t. cbn [unit_run]. rewrite E1. cbn [mbind option_bind].
      split; [done|]. split; [by eapply same_compiler_trans|].
      by rewrite <- (same_compiler_file_name t0 t1 S1).
Qed.

(** C10. There is no include guard, and each inclusion first undefines
    [assert]: whether and how [NDEBUG] is defined at the start, any
    sequence of inclusions and of definitions and undefinitions of
    [NDEBUG] is accepted, and so is one more inclusion after it; the
    definition of [assert] that inclusion leaves is [((void)0)] if
    [NDEBUG] is defined at it and the definition the compiler's macros
    select otherwise, whatever came before.  Two histories that agree on
    [NDEBUG] at the last inclusion leave the same definition.  (The
    table at the start is one in which [__ASSERT_FILE_NAME], a name
    reserved to the header, is not defined, or is as an earlier inclusion
    has defined it, and [#if __DARWIN_UNIX03] has a value.) *)
Theorem assert_h_may_be_included_repeatedly (t0 : gmap string macro) :
  t0 !! "__ASSERT_FILE_NAME" = None
  ∨ t0 !! "__ASSERT_FILE_NAME" = Some (assert_file_name_macro t0) →
  is_Some (pp_if "__DARWIN_UNIX03" t0) →
  (∀ ds, ∃ t t',
      unit_run ds t0 = Some t
      ∧ unit_run (ds ++ [IncludeAssert]) t0 = Some t'
      ∧ t' !! "assert" =
          Some (if defined "NDEBUG" t then assert_NDEBUG
                else assert_enabled t0))
  ∧ (∀ ds1 ds2 t1 t2 t1' t2',
      unit_run ds1 t0 = Some t1 →
      unit_run ds2 t0 = Some t2 →
      defined "NDEBUG" t1 = defined "NDEBUG" t2 →
      unit_run (ds1 ++ [IncludeAssert]) t0 = Some t1' →
      unit_run (ds2 ++ [IncludeAssert]) t0 = Some t2' →
      t1' !! "assert" = t2' !! "assert").
Proof.
  intros HF HU.
  assert (∀ ds t t', unit_run ds t0 = Some t →
            unit_run (ds ++ [IncludeAssert]) t0 = Some t' →
            t' !! "assert" =
              Some (if defined "NDEBUG" t then assert_NDEBUG
                    else assert_enabled t0)) as Hlast.
  { intros ds t t' E E'.
    destruct (unit_run_ok ds t0 HF HU) as (t1 & E1 & S1 & _).
    rewrite E in E1. injection E1 as <-.
    rewrite unit_run_app, E in E'. cbn in E'.
    destruct (assert_h t) as [t2|] eqn:Hinc; [|done].
    cbn in E'. injection E' as <-.
    destruct (assert_h_Some _ _ Hinc) as (Ha & _).
    by rewrite Ha, (same_compiler_enabled t0 t S1). }
  split.
  - intros ds.
    destruct (unit_run_ok ds t0 HF HU) as (t & E & _).
    destruct (unit_run_ok (ds ++ [IncludeAssert]) t0 HF HU)
      as (t' & E' & _).
    exists t, t'. split; [done|]. split; [done|]. by eapply Hlast.
  - intros ds1 ds2 t1 t2 t1' t2' E1 E2 Hsame E1' E2'.
    rewrite (Hlast ds1 t1 t1' E1 E1'), (Hlast ds2 t2 t2' E2 E2').
    by rewrite Hsame.
Qed.

End Reinclusion.

(** * Properties of <fts.h> *)

Section FtsFlags.

Local Open Scope Z_scope.

(** The option bits by position: bit [k] of the word is the [k]-th flag of
    the header. *)
Lemma option_flags_bits :
  map snd option_flags = map (λ k, 2 ^ Z.of_nat k) (seq 0 8).
Proof. reflexivity. Qed.

(** Two of the option bits have a bit in common only if they are the
    same. *)
Lemma option_flag_land (f g : Z) :
  f ∈ map snd option_flags → g ∈ map snd option_flags →
  Z.land f g = if decide (f = g) then f else 0.
Proof.
  cbn. rewrite !elem_of_cons, !elem_of_nil.
  intros Hf Hg.
  repeat (destruct Hf as [->|Hf]; [|]); try done;
    repeat (destruct Hg as [->|Hg]; [|]); try done.
Qed.

(** A flag is in the OR of a set of flags exactly if it is in the set. *)
Lemma or_flags_land (fs : list Z) (f : Z) :
  Forall (λ g, g ∈ map snd option_flags) fs →
  f ∈ map snd option_flags →
  Z.land (or_flags fs) f = if decide (f ∈ fs) then f else 0.
Proof.
  intros Hfs Hf. induction Hfs as [|g fs Hg Hfs IH].
  - cbn. rewrite decide_False by apply not_elem_of_nil. done.
  - cbn [or_flags foldr]. fold (or_flags fs).
    rewrite Z.land_lor_distr_l, IH, (option_flag_land g f Hg Hf).
    destruct (decide (g = f)) as [->|Hne], (decide (f ∈ fs)) as [Hin|Hnin],
      (decide (f ∈ _ :: fs)) as [Hc|Hc];
      rewrite ?Z.lor_diag, ?Z.lor_0_r, ?Z.lor_0_l; try done;
      exfalso; revert Hc; rewrite elem_of_cons; intuition congruence.
Qed.

(** A word within the mask has no bit outside it. *)
Lemma valid_options_land (w p : Z) :
  valid_options w → Z.land p FTS_OPTIONMASK = 0 → Z.land w p = 0.
Proof.
  unfold valid_options. intros Hw Hp.
  rewrite <- Hw, <- Z.land_assoc, (Z.land_comm FTS_OPTIONMASK p), Hp.
  apply Z.land_0_r.
Qed.

End FtsFlags.

Section FtsClaims.

Local Open Scope Z_scope.

Lemma option_flags_NoDup : NoDup (map snd option_flags).
Proof. by apply (bool_decide_unpack _). Qed.

Lemma info_values_NoDup : NoDup (map snd info_values).
Proof. by apply (bool_decide_unpack _). Qed.

(** In a table without a repeated value, a value has one name. *)
Lemma value_names_unique (l : list (string * Z)) (a b : string) (v : Z) :
  NoDup (map snd l) → (a, v) ∈ l → (b, v) ∈ l → a = b.
Proof.
  induction l as [|[c w] l IH]; cbn [map snd].
  - intros _ H. by apply elem_of_nil in H.
  - intros [Hw Hl]%NoDup_cons [Ha|Ha]%elem_of_cons [Hb|Hb]%elem_of_cons.
    + congruence.
    + exfalso. apply Hw. injection Ha as _ <-.
      change v with (snd (b, v)). by apply list_elem_of_fmap_2.
    + exfalso. apply Hw. injection Hb as _ <-.
      change v with (snd (a, v)). by apply list_elem_of_fmap_2.
    + by apply IH.
Qed.

(** C7. The eight option flags up to the mask, FTS_COMFOLLOW, FTS_LOGICAL,
    FTS_NOCHDIR, FTS_NOSTAT, FTS_PHYSICAL, FTS_SEEDOT, FTS_XDEV and
    FTS_WHITEOUT, are each one bit of the int [fts_options]; two different
    ones have no bit in common; and in the OR of any set of them, each
    flag of the set is still set and no other flag is. *)
Theorem option_flags_single_disjoint_bits :
  map fst option_flags =
    [ "FTS_COMFOLLOW"; "FTS_LOGICAL"; "FTS_NOCHDIR"; "FTS_NOSTAT";
      "FTS_PHYSICAL"; "FTS_SEEDOT"; "FTS_XDEV"; "FTS_WHITEOUT" ]
  ∧ member "fts_options" FTS_members = Some TInt
  ∧ (∀ f, f ∈ map snd option_flags →
       (∃ k, 0 ≤ k ∧ f = 2 ^ k) ∧ in_range TInt f = true)
  ∧ (∀ (i j : nat) f g,
       map snd option_flags !! i = Some f →
       map snd option_flags !! j = Some g →
       i ≠ j → Z.land f g = 0)
  ∧ (∀ fs f,
       Forall (λ g, g ∈ map snd option_flags) fs →
       f ∈ map snd option_flags →
       (f ∈ fs → Z.land (or_flags fs) f = f)
       ∧ (f ∉ fs → Z.land (or_flags fs) f = 0)).
Proof.
  split; [done|]. split; [done|]. split; [|split].
  - intros f Hf. rewrite option_flags_bits in Hf.
    apply list_elem_of_fmap in Hf as (k & -> & Hk).
    apply elem_of_seq in Hk. split.
    + exists (Z.of_nat k). split; [lia|done].
    + cbn in Hk. destruct Hk as [_ Hk].
      do 8 (destruct k as [|k]; [done|]). lia.
  - intros i j f g Hi Hj Hij.
    rewrite (option_flag_land f g).
    + rewrite decide_False; [done|]. intros ->.
      apply Hij. eapply NoDup_lookup; eauto using option_flags_NoDup.
    + by eapply list_elem_of_lookup_2.
    + by eapply list_elem_of_lookup_2.
  - intros fs f Hfs Hf. rewrite (or_flags_land fs f Hfs Hf).
    split; intros H.
    + by rewrite decide_True.
    + by rewrite decide_False.
Qed.

(** C8. FTS_OPTIONMASK, 0x0ff, is the OR of the eight option flags
    FTS_COMFOLLOW to FTS_WHITEOUT; the flags FTS_NAMEONLY, 0x100, and
    FTS_STOP, 0x200, have no bit in it; so a word within the mask, in
    particular the OR of any set of the eight flags, has neither of the
    two set. *)
Theorem option_mask_excludes_private_flags :
  FTS_OPTIONMASK = 0x0ff
  ∧ length option_flags = 8%nat
  ∧ FTS_OPTIONMASK = or_flags (map snd option_flags)
  ∧ private_flags = [("FTS_NAMEONLY", 0x100); ("FTS_STOP", 0x200)]
  ∧ Z.land FTS_NAMEONLY FTS_OPTIONMASK = 0
  ∧ Z.land FTS_STOP FTS_OPTIONMASK = 0
  ∧ (∀ w, valid_options w →
       Z.land w FTS_NAMEONLY = 0 ∧ Z.land w FTS_STOP = 0)
  ∧ (∀ fs, Forall (λ g, g ∈ map snd option_flags) fs →
       valid_options (or_flags fs)).
Proof.
  repeat (split; [done|]). split.
  - intros w Hw. split; by apply valid_options_land.
  - intros fs Hfs. unfold valid_options.
    induction Hfs as [|g fs Hg Hfs IH]; [done|].
    cbn [or_flags foldr]. fold (or_flags fs).
    rewrite Z.land_lor_distr_l, IH. f_equal.
    revert Hg. cbn. rewrite !elem_of_cons, elem_of_nil.
    intros Hg. repeat (destruct Hg as [->|Hg]; [done|]). done.
Qed.

(** C9. The fourteen values of [fts_info], FTS_D to FTS_W, are 1 to 14 in
    the order of the header, no two the same, so a value names one kind
    of node; each is a value of the unsigned short [fts_info]. *)
Theorem info_values_consecutive_distinct (cfg : config) :
  map fst info_values =
    [ "FTS_D"; "FTS_DC"; "FTS_DEFAULT"; "FTS_DNR"; "FTS_DOT"; "FTS_DP";
      "FTS_ERR"; "FTS_F"; "FTS_INIT"; "FTS_NS"; "FTS_NSOK"; "FTS_SL";
      "FTS_SLNONE"; "FTS_W" ]
  ∧ map snd info_values = map Z.of_nat (seq 1 14)
  ∧ NoDup (map snd info_values)
  ∧ (∀ a b v, (a, v) ∈ info_values → (b, v) ∈ info_values → a = b)
  ∧ member "fts_info" (FTSENT_members cfg) = Some TUShort
  ∧ (∀ v, v ∈ map snd info_values → in_range TUShort v = true).
Proof.
  split; [done|]. split; [done|]. split; [apply info_values_NoDup|].
  split; [|split; [done|]].
  - intros a b v. apply value_names_unique, info_values_NoDup.
  - intros v. cbn. rewrite !elem_of_cons, elem_of_nil.
    intros Hv. repeat (destruct Hv as [->|Hv]; [done|]). done.
Qed.

(** C5. Every FTSENT has the member [int fts_errno]; [fts_options] of FTS
    is an int, and FTS_STOP, 0x200, is one of its two private flags, a
    value of int with no bit in FTS_OPTIONMASK, so it is not a valid user
    option and is none of the eight option flags. *)
Theorem fts_errno_and_FTS_STOP (cfg : config) :
  (members_of "FTSENT" (fts_h cfg) ≫= member "fts_errno") = Some TInt
  ∧ (members_of "FTS" (fts_h cfg) ≫= member "fts_options") = Some TInt
  ∧ FTS_STOP = 0x200
  ∧ ("FTS_STOP", FTS_STOP) ∈ private_flags
  ∧ in_range TInt FTS_STOP = true
  ∧ Z.land FTS_STOP FTS_OPTIONMASK = 0
  ∧ ¬ valid_options FTS_STOP
  ∧ FTS_STOP ∉ map snd option_flags.
Proof.
  repeat (split; [done|]). split.
  - apply elem_of_cons. right. apply elem_of_cons. by left.
  - repeat (split; [done|]). cbn. rewrite !elem_of_cons, elem_of_nil.
    intros H. repeat (destruct H as [H|H]; [done|]). done.
Qed.

End FtsClaims.

Section FtsDeclarations.

Local Open Scope Z_scope.

(** C6, as stated, fails: FTSENT has members that are none of the
    per-node data the claim lists, [fts_errno] for one. *)
Lemma FTSENT_members_not_only_per_node :
  ¬ (∀ x, x ∈ map fst (FTSENT_members (Config ∅ false))
          ↔ x ∈ per_node_members).
Proof.
  intros H. destruct (H "fts_errno") as [H1 _].
  assert ("fts_errno" ∈ map fst (FTSENT_members (Config ∅ false))) as Hin.
  { cbn. rewrite !elem_of_cons. tauto. }
  specialize (H1 Hin). revert H1. unfold per_node_members.
  rewrite !elem_of_cons, elem_of_nil.
  intros H1. repeat (destruct H1 as [H1|H1]; [done|]). done.
Qed.

(** C6, amended. FTSENT has twenty members.  Among them are the per-node
    data: the inode number [fts_ino], the device number [fts_dev], the
    link count [fts_nlink] (of the types [__fts_ino_t], [__fts_dev_t] and
    [__fts_nlink_t], which are [ino_t], [dev_t] and [nlink_t] unless
    defined otherwise), the path strings [fts_path], [fts_accpath] and
    [fts_name], the lengths [fts_pathlen] and [fts_namelen], the depth
    [fts_level] (an int unless [__fts_level_t] is defined otherwise, with
    FTS_ROOTPARENTLEVEL = -1 just below FTS_ROOTLEVEL = 0) and the node
    kind [fts_info].  The other ten are [fts_cycle], [fts_parent],
    [fts_link], [fts_number], [fts_pointer], [fts_errno], [fts_symfd],
    [fts_flags], [fts_instr] and [fts_statp]. *)
Theorem FTSENT_has_per_node_members (cfg : config) :
  let ms := FTSENT_members cfg in
  members_of "FTSENT" (fts_h cfg) = Some ms
  ∧ length ms = 20%nat
  ∧ NoDup (map fst ms)
  ∧ (∀ x, x ∈ per_node_members → x ∈ map fst ms)
  ∧ filter (λ x, x ∉ per_node_members) (map fst ms) =
      [ "fts_cycle"; "fts_parent"; "fts_link"; "fts_number"; "fts_pointer";
        "fts_errno"; "fts_symfd"; "fts_flags"; "fts_instr"; "fts_statp" ]
  ∧ member "fts_ino" ms = Some (fts_ino_t cfg)
  ∧ member "fts_dev" ms = Some (fts_dev_t cfg)
  ∧ member "fts_nlink" ms = Some (fts_nlink_t cfg)
  ∧ member "fts_path" ms = Some (TPtr TChar)
  ∧ member "fts_accpath" ms = Some (TPtr TChar)
  ∧ member "fts_name" ms = Some (TArray TChar 1)
  ∧ member "fts_pathlen" ms = Some (fts_length_t cfg)
  ∧ member "fts_namelen" ms = Some (fts_length_t cfg)
  ∧ member "fts_level" ms = Some (fts_level_t cfg)
  ∧ member "fts_info" ms = Some TUShort
  ∧ (cfg_types cfg = ∅ →
       fts_ino_t cfg = TNamed "ino_t" ∧ fts_dev_t cfg = TNamed "dev_t"
       ∧ fts_nlink_t cfg = TNamed "nlink_t" ∧ fts_length_t cfg = TUInt
       ∧ fts_level_t cfg = TInt)
  ∧ FTS_ROOTPARENTLEVEL = -1
  ∧ FTS_ROOTLEVEL = 0
  ∧ FTS_ROOTPARENTLEVEL = FTS_ROOTLEVEL - 1
  ∧ in_range TInt FTS_ROOTPARENTLEVEL = true
  ∧ in_range TInt FTS_ROOTLEVEL = true.
Proof.
  cbv zeta. split; [done|]. split; [done|]. split; [|split; [|split]].
  - by apply (bool_decide_unpack _).
  - intros x. unfold per_node_members. cbn.
    rewrite !elem_of_cons, !elem_of_nil. intuition (subst; tauto).
  - by vm_compute.
  - repeat (split; [done|]). split; [|done].
    intros Hcfg. unfold fts_ino_t, fts_dev_t, fts_nlink_t, fts_length_t,
      fts_level_t, ifndef_define. rewrite Hcfg. done.
Qed.




End FtsDeclarations.

(** * The theorems at concrete translation units *)

Section Instances.

(** A compiler other than GNU C, no [__FILE_NAME__]: [__assert] gets the
    text, the path and the line. *)
Example assert_plain_fails :
  (t ← assert_h ∅;
   Some (run_assert nat (λ _ s, (0%Z, S s))
           (SrcLoc "src/main.c" "main.c" 42 "main") t "n > 0" 0%nat))
  = Some (Terminated 1%nat
            [ EvEval "n > 0";
              EvCall "__assert"
                [VStr "n > 0"; VStr "src/main.c"; VInt 42] ]).
Proof. vm_compute. reflexivity. Qed.

(** clang with [__DARWIN_UNIX03] set: [__assert_rtn] gets the function,
    the last component of the path, the line and the text. *)
Example assert_gnuc_unix03_fails :
  (t ← assert_h {[ "__GNUC__" := MObj (EInt 4);
                   "__DARWIN_UNIX03" := MObj (EInt 1);
                   "__FILE_NAME__" := MObj (EId "__FILE_NAME__") ]};
   Some (run_assert nat (λ _ s, (0%Z, S s))
           (SrcLoc "src/main.c" "main.c" 42 "main") t "n > 0" 0%nat))
  = Some (Terminated 1%nat
            [ EvEval "n > 0";
              EvCall "__assert_rtn"
                [VStr "main"; VStr "main.c"; VInt 42; VStr "n > 0"] ]).
Proof. vm_compute. reflexivity. Qed.

(** GNU C with [__DARWIN_UNIX03] 0 and no [__FILE_NAME__]. *)
Example assert_gnuc_fails :
  (t ← assert_h {[ "__GNUC__" := MObj (EInt 4);
                   "__DARWIN_UNIX03" := MObj (EInt 0) ]};
   Some (t !! "assert",
         run_assert nat (λ _ s, (0%Z, S s))
           (SrcLoc "src/main.c" "main.c" 42 "main") t "n > 0" 0%nat))
  = Some (Some assert_gnuc,
          Terminated 1%nat
            [ EvEval "n > 0";
              EvCall "__assert"
                [VStr "n > 0"; VStr "src/main.c"; VInt 42] ]).
Proof. vm_compute. reflexivity. Qed.

(** Without the [#undef assert] of line 52 a second inclusion under a
    different [NDEBUG] would define [assert] again with another
    replacement list, a constraint violation (C11 6.10.3p2). *)
Example redefinition_refused :
  (t ← assert_h ∅; pp_define "assert" assert_NDEBUG t) = None.
Proof. vm_compute. reflexivity. Qed.

(** In a program that has given [__ASSERT_FILE_NAME] another meaning the
    [#define] of lines 60-64 is such a redefinition. *)
Example assert_h_conflict :
  assert_h {[ "__ASSERT_FILE_NAME" := MObj (EStr "other") ]} = None.
Proof. vm_compute. reflexivity. Qed.

(** [assert(n > 0)] at line 42 of src/main.c, in [main], compiled by GNU C
    without [__FILE_NAME__], [n > 0] being false. *)
Lemma assert_false_calls_failure_routine_witness :
  let t : gmap string macro := {[ "__GNUC__" := MObj (EInt 4) ]} in
  let t' : gmap string macro :=
    <["assert" := assert_gnuc]>
      (<["__ASSERT_FILE_NAME" := MObj (EId "__FILE__")]> t) in
  let den : string → nat → Z * nat := λ _ s, (0%Z, S s) in
  let loc := SrcLoc "src/main.c" "main.c" 42 "main" in
  defined "NDEBUG" t = false
  ∧ assert_h t = Some t'
  ∧ (den "n > 0" 0%nat).1 = 0%Z
  ∧ ∃ f args,
      run_assert nat den loc t' "n > 0" 0%nat
        = Terminated 1%nat [EvEval "n > 0"; EvCall f args]
      ∧ ((f = "__assert"
          ∧ args = [VStr "n > 0"; VStr "src/main.c"; VInt 42])
         ∨ (f = "__assert_rtn"
            ∧ args = [VStr "main"; VStr "src/main.c"; VInt 42;
                      VStr "n > 0"])).
Proof.
  cbv zeta. split; [reflexivity|]. split; [vm_compute; reflexivity|].
  split; [reflexivity|].
  exact (assert_false_calls_failure_routine nat (λ _ s, (0%Z, S s))
           (SrcLoc "src/main.c" "main.c" 42 "main")
           {[ "__GNUC__" := MObj (EInt 4) ]}
           (<["assert" := assert_gnuc]>
              (<["__ASSERT_FILE_NAME" := MObj (EId "__FILE__")]>
                 {[ "__GNUC__" := MObj (EInt 4) ]}))
           "n > 0" 0%nat
           eq_refl ltac:(vm_compute; reflexivity) eq_refl).
Defined.

(** The same [assert(n > 0)] under clang with [__DARWIN_UNIX03] set,
    [n > 0] being true. *)
Lemma assert_true_evaluates_once_witness :
  let t : gmap string macro :=
    {[ "__GNUC__" := MObj (EInt 4);
       "__DARWIN_UNIX03" := MObj (EInt 1);
       "__FILE_NAME__" := MObj (EId "__FILE_NAME__") ]} in
  let t' : gmap string macro :=
    <["assert" := assert_gnuc_unix03]>
      (<["__ASSERT_FILE_NAME" := MObj (EId "__FILE_NAME__")]> t) in
  let den : string → nat → Z * nat := λ _ s, (1%Z, S s) in
  let loc := SrcLoc "src/main.c" "main.c" 42 "main" in
  defined "NDEBUG" t = false
  ∧ assert_h t = Some t'
  ∧ (den "n > 0" 0%nat).1 ≠ 0%Z
  ∧ ∃ tr,
      run_assert nat den loc t' "n > 0" 0%nat = Done VVoid 1%nat tr
      ∧ tr = [EvEval "n > 0"]
      ∧ evaluations "n > 0" tr = 1%nat
      ∧ ∀ f args, EvCall f args ∉ tr.
Proof.
  cbv zeta. split; [reflexivity|]. split; [vm_compute; reflexivity|].
  split; [discriminate|].
  exact (assert_true_evaluates_once nat (λ _ s, (1%Z, S s))
           (SrcLoc "src/main.c" "main.c" 42 "main")
           {[ "__GNUC__" := MObj (EInt 4);
              "__DARWIN_UNIX03" := MObj (EInt 1);
              "__FILE_NAME__" := MObj (EId "__FILE_NAME__") ]}
           (<["assert" := assert_gnuc_unix03]>
              (<["__ASSERT_FILE_NAME" := MObj (EId "__FILE_NAME__")]>
                 {[ "__GNUC__" := MObj (EInt 4);
                    "__DARWIN_UNIX03" := MObj (EInt 1);
                    "__FILE_NAME__" := MObj (EId "__FILE_NAME__") ]}))
           "n > 0" 0%nat
           eq_refl ltac:(vm_compute; reflexivity) ltac:(discriminate)).
Defined.

(** [assert(n++ > 0)] compiled with [-DNDEBUG]: the argument, which
    would change the state, is not evaluated. *)
Lemma assert_NDEBUG_is_void_0_witness :
  let t : gmap string macro := {[ "NDEBUG" := MObj (EInt 1) ]} in
  let den : string → nat → Z * nat := λ _ s, (0%Z, S s) in
  let loc := SrcLoc "src/main.c" "main.c" 42 "main" in
  defined "NDEBUG" t = true
  ∧ ∃ t',
      assert_h t = Some t'
      ∧ t' !! "assert" = Some (MFun "e" (ECastVoid (EInt 0)))
      ∧ expand_call t' "assert" "n++ > 0" = Some (ECastVoid (EInt 0))
      ∧ run_assert nat den loc t' "n++ > 0" 7%nat = Done VVoid 7%nat []
      ∧ evaluations "n++ > 0" [] = 0%nat.
Proof.
  cbv zeta. split; [reflexivity|].
  exact (assert_NDEBUG_is_void_0 nat (λ _ s, (0%Z, S s))
           (SrcLoc "src/main.c" "main.c" 42 "main")
           {[ "NDEBUG" := MObj (EInt 1) ]} "n++ > 0" 7%nat eq_refl).
Defined.

(** A unit compiled with [-DNDEBUG]: three inclusions, with [NDEBUG]
    undefined before the second and defined again, empty, before the
    third, and a fourth inclusion after them. *)
Lemma assert_h_may_be_included_repeatedly_witness :
  let t0 : gmap string macro :=
    {[ "__GNUC__" := MObj (EInt 4); "__DARWIN_UNIX03" := MObj (EInt 1);
       "NDEBUG" := MObj (EInt 1) ]} in
  let ds := [IncludeAssert; UndefNDEBUG; IncludeAssert;
             DefineNDEBUG EEmpty; IncludeAssert; UndefNDEBUG] in
  (t0 !! "__ASSERT_FILE_NAME" = None
   ∨ t0 !! "__ASSERT_FILE_NAME" = Some (assert_file_name_macro t0))
  ∧ is_Some (pp_if "__DARWIN_UNIX03" t0)
  ∧ ∃ t t',
      unit_run ds t0 = Some t
      ∧ unit_run (ds ++ [IncludeAssert]) t0 = Some t'
      ∧ t' !! "assert" =
          Some (if defined "NDEBUG" t then assert_NDEBUG
                else assert_enabled t0).
Proof.
  cbv zeta. split; [left; reflexivity|]. split; [by eexists|].
  refine (proj1 (assert_h_may_be_included_repeatedly
                   {[ "__GNUC__" := MObj (EInt 4);
                      "__DARWIN_UNIX03" := MObj (EInt 1);
                      "NDEBUG" := MObj (EInt 1) ]} _ _)
            [IncludeAssert; UndefNDEBUG; IncludeAssert;
             DefineNDEBUG EEmpty; IncludeAssert; UndefNDEBUG]);
    [left; reflexivity | by exists true].
Defined.

End Instances.

(** * Further properties of <assert.h> *)

Section AssertInclusion.

Implicit Types (t : gmap string macro).

(** X1. The header does not write [NDEBUG]: after an inclusion it is
    defined, or not, as before.  [__ASSERT_FILE_NAME] is written only
    with [NDEBUG] undefined: it then stands for [__FILE_NAME__] where that
    is defined and for [__FILE__] otherwise; an inclusion with [NDEBUG]
    defined leaves it as it was, so it does not provide it. *)
Theorem assert_h_keeps_NDEBUG t t' :
  assert_h t = Some t' →
  t' !! "NDEBUG" = t !! "NDEBUG"
  ∧ (defined "NDEBUG" t = true →
     t' !! "__ASSERT_FILE_NAME" = t !! "__ASSERT_FILE_NAME")
  ∧ (defined "NDEBUG" t = false →
     t' !! "__ASSERT_FILE_NAME" =
       Some (MObj (EId (if defined "__FILE_NAME__" t then "__FILE_NAME__"
                        else "__FILE__")))).
Proof.
  intros Hinc. destruct (assert_h_Some _ _ Hinc) as (_ & Hf & Hn & Hfr).
  split; [by apply Hfr|]. split; [done|].
  intros HN. rewrite (Hf HN). unfold assert_file_name_macro.
  by destruct (defined "__FILE_NAME__" t).
Qed.

(** X2. Including the header again right after a successful inclusion
    succeeds and changes nothing. *)
Theorem assert_h_twice t t' :
  assert_h t = Some t' → assert_h t' = Some t'.
Proof.
  intros Hinc. destruct (assert_h_Some _ _ Hinc) as (Ha & Hf & _ & Hfr).
  assert (∀ m, t' !! "assert" = Some m →
            pp_define "assert" m (pp_undef "assert" t') = Some t') as Hdef.
  { intros m Hm. unfold pp_define, pp_undef. rewrite lookup_delete_eq.
    by rewrite insert_delete_id. }
  assert (defined "NDEBUG" t' = defined "NDEBUG" t) as HN'
    by (unfold defined; by rewrite Hfr).
  assert (defined "__GNUC__" t' = defined "__GNUC__" t) as HG'
    by (unfold defined; by rewrite Hfr).
  assert (defined "__FILE_NAME__" t' = defined "__FILE_NAME__" t) as HFN'
    by (unfold defined; by rewrite Hfr).
  assert (pp_if "__DARWIN_UNIX03" t' = pp_if "__DARWIN_UNIX03" t) as HU'
    by (unfold pp_if; by rewrite Hfr).
  unfold assert_h at 1. rewrite !defined_undef_ne, HN' by done.
  destruct (defined "NDEBUG" t) eqn:HN; [by apply Hdef|].
  specialize (Hf eq_refl).
  assert (pp_define "__ASSERT_FILE_NAME"
            (assert_file_name_macro (pp_undef "assert" t'))
            (pp_undef "assert" t') = Some (pp_undef "assert" t')) as ->.
  { unfold pp_define, assert_file_name_macro.
    rewrite defined_undef_ne, HFN' by done.
    unfold pp_undef at 1. rewrite lookup_delete_ne, Hf by done.
    unfold assert_file_name_macro. by rewrite decide_True. }
  cbn [mbind option_bind].
  rewrite defined_undef_ne, pp_if_undef_ne, HG', HU' by done.
  unfold assert_enabled in Ha.
  destruct (defined "__GNUC__" t) eqn:HG; cbn [negb] in *; [|by apply Hdef].
  destruct (pp_if "__DARWIN_UNIX03" t) as [[]|] eqn:HU;
    cbn [mbind option_bind]; [by apply Hdef | by apply Hdef |].
  exfalso. revert Hinc. unfold assert_h.
  rewrite !defined_undef_ne, HN by done.
  destruct (pp_define "__ASSERT_FILE_NAME" _ _) as [t1|] eqn:E1; [|done].
  cbn [mbind option_bind].
  rewrite (pp_define_defined _ _ _ _ "__GNUC__" E1) by done.
  rewrite (pp_define_pp_if _ _ _ _ "__DARWIN_UNIX03" E1) by done.
  rewrite defined_undef_ne, pp_if_undef_ne, HG, HU by done.
  done.
Qed.

End AssertInclusion.

Section AssertAfterInclusion.

Variable St : Type.
Variable den : string → St → Z * St.
Variable loc : srcloc.


End AssertAfterInclusion.

Section AssertInclusionInstances.

(** An inclusion under GNU C with [-DNDEBUG]. *)
Lemma assert_h_keeps_NDEBUG_witness :
  let t : gmap string macro :=
    {[ "__GNUC__" := MObj (EInt 4); "NDEBUG" := MObj (EInt 1) ]} in
  let t' : gmap string macro :=
    {[ "__GNUC__" := MObj (EInt 4); "NDEBUG" := MObj (EInt 1);
       "assert" := assert_NDEBUG ]} in
  assert_h t = Some t'
  ∧ t' !! "NDEBUG" = t !! "NDEBUG"
  ∧ (defined "NDEBUG" t = true →
     t' !! "__ASSERT_FILE_NAME" = t !! "__ASSERT_FILE_NAME").
Proof.
  cbv zeta.
  match goal with
  | |- ?P ∧ _ => assert P as H by (vm_compute; reflexivity)
  end.
  split; [exact H|].
  destruct (assert_h_keeps_NDEBUG _ _ H) as (H1 & H2 & _).
  exact (conj H1 H2).
Defined.

(** A second inclusion under GNU C with [NDEBUG] undefined. *)
Lemma assert_h_twice_witness :
  let t : gmap string macro := {[ "__GNUC__" := MObj (EInt 4) ]} in
  let t' : gmap string macro :=
    <["assert" := assert_gnuc]>
      (<["__ASSERT_FILE_NAME" := MObj (EId "__FILE__")]> t) in
  assert_h t = Some t' ∧ assert_h t' = Some t'.
Proof.
  cbv zeta.
  match goal with
  | |- ?P ∧ _ => assert P as H by (vm_compute; reflexivity)
  end.
  split; [exact H|]. exact (assert_h_twice _ _ H).
Defined.


End AssertInclusionInstances.

(** * Further properties of <fts.h> *)

Section FtsWords.

Local Open Scope Z_scope.

(** In the OR of some flags of a list of pairwise disjoint flags, a flag
    of the list is set exactly if it is one of them. *)
Lemma disjoint_flags_or_land (l fs : list Z) (f : Z) :
  (∀ g h, g ∈ l → h ∈ l → Z.land g h = if decide (g = h) then g else 0) →
  Forall (λ g, g ∈ l) fs → f ∈ l →
  Z.land (or_flags fs) f = if decide (f ∈ fs) then f else 0.
Proof.
  intros Hl Hfs Hf. induction Hfs as [|g fs Hg Hfs IH].
  - cbn. rewrite decide_False by apply not_elem_of_nil. done.
  - cbn [or_flags foldr]. fold (or_flags fs).
    rewrite Z.land_lor_distr_l, IH, (Hl g f Hg Hf).
    destruct (decide (g = f)) as [->|Hne], (decide (f ∈ fs)) as [Hin|Hnin],
      (decide (f ∈ _ :: fs)) as [Hc|Hc];
      rewrite ?Z.lor_diag, ?Z.lor_0_r, ?Z.lor_0_l; try done;
      exfalso; revert Hc; rewrite elem_of_cons; intuition congruence.
Qed.

(** X5. The library can keep its private flags in the word the user's options
    are in: setting FTS_NAMEONLY or FTS_STOP in a valid options word and
    masking with FTS_OPTIONMASK gives the user's word back, the flag that
    was set tests as set and the other private flag as clear, and clearing
    the flag gives the user's word back.  Masking any word gives a valid
    one. *)
Theorem private_flags_keep_user_options (w p q : Z) :
  valid_options w →
  p ∈ map snd private_flags → q ∈ map snd private_flags →
  Z.land (Z.lor w p) FTS_OPTIONMASK = w
  ∧ Z.land (Z.lor w p) p = p
  ∧ (q ≠ p → Z.land (Z.lor w p) q = 0)
  ∧ Z.ldiff (Z.lor w p) p = w
  ∧ ∀ v, valid_options (Z.land v FTS_OPTIONMASK).
Proof.
  intros Hw Hp Hq.
  assert (Z.land p FTS_OPTIONMASK = 0 ∧ Z.land p p = p) as [Hpm Hpp].
  { revert Hp. cbn. rewrite !elem_of_cons, elem_of_nil.
    intros [->|[->|[]]]; done. }
  assert (Z.land w p = 0) as Hwp by (by apply valid_options_land).
  split; [|split; [|split; [|split]]].
  - rewrite Z.land_lor_distr_l, Hpm, Z.lor_0_r. exact Hw.
  - rewrite Z.land_lor_distr_l, Hwp, Hpp. done.
  - intros Hne. rewrite Z.land_lor_distr_l.
    assert (Z.land q FTS_OPTIONMASK = 0 ∧ Z.land p q = 0) as [Hqm Hpq].
    { revert Hp Hq Hne. cbn. rewrite !elem_of_cons, !elem_of_nil.
      intros [->|[->|[]]] [->|[->|[]]]; done. }
    rewrite (valid_options_land w q Hw Hqm), Hpq. done.
  - apply Z.bits_inj'. intros n Hn.
    rewrite Z.ldiff_spec, Z.lor_spec.
    assert (Z.testbit (Z.land w p) n = false) as Hb
      by (rewrite Hwp; apply Z.bits_0).
    rewrite Z.land_spec in Hb.
    destruct (Z.testbit w n), (Z.testbit p n); done.
  - intros v. unfold valid_options.
    rewrite <- Z.land_assoc, Z.land_diag. done.
Qed.

(** A user's word with FTS_STOP set by the library. *)
Lemma private_flags_keep_user_options_witness :
  valid_options (Z.lor FTS_PHYSICAL FTS_XDEV)
  ∧ Z.land (Z.lor (Z.lor FTS_PHYSICAL FTS_XDEV) FTS_STOP) FTS_OPTIONMASK
    = Z.lor FTS_PHYSICAL FTS_XDEV.
Proof.
  split; [reflexivity|].
  refine (proj1 (private_flags_keep_user_options
                   (Z.lor FTS_PHYSICAL FTS_XDEV) FTS_STOP FTS_NAMEONLY
                   _ _ _)).
  - reflexivity.
  - apply elem_of_cons. right. apply elem_of_cons. by left.
  - apply elem_of_cons. by left.
Defined.

(** X6. Lines 123-125.  The three flags of [fts_flags] are single bits of an
    unsigned short, no two with a bit in common, and in the OR of any of
    them each one in it is set and no other is. *)
Theorem entry_flags_single_disjoint_bits (cfg : config) :
  let flags := [FTS_DONTCHDIR; FTS_SYMFOLLOW; FTS_ISW] in
  member "fts_flags" (FTSENT_members cfg) = Some TUShort
  ∧ flags = map (λ k, 2 ^ Z.of_nat k) (seq 0 3)
  ∧ (∀ f, f ∈ flags → in_range TUShort f = true)
  ∧ (∀ f g, f ∈ flags → g ∈ flags → f ≠ g → Z.land f g = 0)
  ∧ (∀ fs f, Forall (λ g, g ∈ flags) fs → f ∈ flags →
       (f ∈ fs → Z.land (or_flags fs) f = f)
       ∧ (f ∉ fs → Z.land (or_flags fs) f = 0)).
Proof.
  cbv zeta.
  assert (∀ g h, g ∈ [FTS_DONTCHDIR; FTS_SYMFOLLOW; FTS_ISW] →
            h ∈ [FTS_DONTCHDIR; FTS_SYMFOLLOW; FTS_ISW] →
            Z.land g h = if decide (g = h) then g else 0) as Hl.
  { intros g h. rewrite !elem_of_cons, !elem_of_nil.
    intros [->|[->|[->|[]]]] [->|[->|[->|[]]]]; done. }
  split; [done|]. split; [done|]. split; [|split].
  - intros f. rewrite !elem_of_cons, elem_of_nil.
    intros [->|[->|[->|[]]]]; done.
  - intros f g Hf Hg Hne. rewrite (Hl f g Hf Hg). by rewrite decide_False.
  - intros fs f Hfs Hf. rewrite (disjoint_flags_or_land _ fs f Hl Hfs Hf).
    split; intros H; [by rewrite decide_True | by rewrite decide_False].
Qed.

(** X7. Lines 128-131.  The four instructions of [fts_set] are 1 to 4 in the
    order of the header, no two the same and none 0, each a value of the
    unsigned short [fts_instr] and of the int parameter of [fts_set]. *)
Theorem instr_values_consecutive_distinct (cfg : config) :
  let instrs := [FTS_AGAIN; FTS_FOLLOW; FTS_NOINSTR; FTS_SKIP] in
  member "fts_instr" (FTSENT_members cfg) = Some TUShort
  ∧ instrs = map Z.of_nat (seq 1 4)
  ∧ NoDup instrs
  ∧ (0 ∉ instrs)
  ∧ (∀ v, v ∈ instrs → in_range TUShort v = true ∧ in_range TInt v = true)
  ∧ signature "fts_set" fts_prototypes =
      Some (TInt, [TPtr (TNamed "FTS"); TPtr (TNamed "FTSENT"); TInt]).
Proof.
  cbv zeta. split; [done|]. split; [done|]. split; [|split; [|split]].
  - by apply (bool_decide_unpack _).
  - rewrite !elem_of_cons, elem_of_nil. intros [?|[?|[?|[?|[]]]]]; done.
  - intros v. rewrite !elem_of_cons, elem_of_nil.
    intros [->|[->|[->|[->|[]]]]]; done.
  - done.
Qed.

End FtsWords.

Section FtsStructures.

Local Open Scope Z_scope.

(** X8. The members of a structure have different names, and [fts_name], an
    array of one char, is the last member of FTSENT, so that the name of
    an entry can run on past the end of the structure; this is so for
    every setting of the type macros. *)
Theorem FTSENT_name_is_last_member (cfg : config) :
  NoDup (map fst FTS_members)
  ∧ NoDup (map fst (FTSENT_members cfg))
  ∧ last (FTSENT_members cfg) = Some ("fts_name", TArray TChar 1).
Proof.
  split; [by apply (bool_decide_unpack _)|].
  split; [by apply (bool_decide_unpack _)|]. done.
Qed.

(** X9. The type macros govern members of FTSENT only.  FTS is the same under
    every setting, so with [__fts_dev_t] or [__fts_length_t] defined
    otherwise [fts_dev] and [fts_pathlen] of an entry take the new type
    while [fts_dev] and [fts_pathlen] of the handle stay [dev_t] and
    unsigned int.  The members of FTSENT keep their names and order, and
    those that are not written with a type macro keep their types.
    [__LIBC12_SOURCE__] changes neither structure. *)
Theorem type_macros_govern_FTSENT_only (cfg cfg' : config) :
  members_of "FTS" (fts_h cfg) = Some FTS_members
  ∧ members_of "FTSENT" (fts_h cfg) = Some (FTSENT_members cfg)
  ∧ map fst (FTSENT_members cfg) = map fst (FTSENT_members cfg')
  ∧ (∀ x, x ∉ [ "fts_number"; "fts_pathlen"; "fts_namelen"; "fts_ino";
                "fts_dev"; "fts_nlink"; "fts_level"; "fts_statp" ] →
          member x (FTSENT_members cfg) = member x (FTSENT_members cfg'))
  ∧ (∀ ty, cfg_types cfg !! "__fts_dev_t" = Some ty →
       member "fts_dev" (FTSENT_members cfg) = Some ty
       ∧ member "fts_dev" FTS_members = Some (TNamed "dev_t"))
  ∧ (∀ ty, cfg_types cfg !! "__fts_length_t" = Some ty →
       member "fts_pathlen" (FTSENT_members cfg) = Some ty
       ∧ member "fts_namelen" (FTSENT_members cfg) = Some ty
       ∧ member "fts_pathlen" FTS_members = Some TUInt)
  ∧ (cfg_types cfg = cfg_types cfg' →
       FTSENT_members cfg = FTSENT_members cfg').
Proof.
  split; [done|]. split; [done|]. split; [done|]. split; [|split; [|split]].
  - intros x Hx. cbn [member FTSENT_members].
    repeat match goal with
      | |- context [decide (?a = x)] =>
          destruct (decide (a = x)) as [?|?];
          [first [done | subst x; exfalso; apply Hx;
                         rewrite !elem_of_cons; intuition]|]
      end.
    done.
  - intros ty Hty. split; [|done]. cbn. unfold fts_dev_t, ifndef_define.
    by rewrite Hty.
  - intros ty Hty. split; [|split; [|done]];
      cbn; unfold fts_length_t, ifndef_define; by rewrite Hty.
  - intros Heq. unfold FTSENT_members, fts_number_t, fts_length_t,
      fts_ino_t, fts_dev_t, fts_nlink_t, fts_level_t, fts_stat_t,
      ifndef_define. by rewrite Heq.
Qed.

(** X10. The comparator [fts_open] takes has the type of the member
    [fts_compar] of the handle, and the entries [fts_read] and
    [fts_children] return have the type of its members [fts_cur] and
    [fts_child], once the typedef name FTSENT is read as the structure
    [struct _ftsent] it names. *)
Theorem prototypes_agree_with_FTS (cfg : config) :
  cfg_LIBC12_SOURCE cfg = false →
  typedef_tag "FTSENT" (fts_h cfg) = Some "_ftsent"
  ∧ (∃ ret a b p,
       signature "fts_open" (fts_h cfg) = Some (ret, [a; b; p])
       ∧ Some (resolve (fts_h cfg) p) = member "fts_compar" FTS_members)
  ∧ (∃ ret params,
       signature "fts_read" (fts_h cfg) = Some (ret, params)
       ∧ Some (resolve (fts_h cfg) ret) = member "fts_cur" FTS_members)
  ∧ (∃ ret params,
       signature "fts_children" (fts_h cfg) = Some (ret, params)
       ∧ Some (resolve (fts_h cfg) ret) = member "fts_child" FTS_members).
Proof.
  intros Hcfg. unfold fts_h. rewrite Hcfg. split; [done|].
  split; [|split]; cbn; repeat eexists.
Qed.

(** Under the default types. *)
Lemma prototypes_agree_with_FTS_witness :
  cfg_LIBC12_SOURCE (Config ∅ false) = false
  ∧ typedef_tag "FTSENT" (fts_h (Config ∅ false)) = Some "_ftsent".
Proof.
  split; [reflexivity|].
  exact (proj1 (prototypes_agree_with_FTS (Config ∅ false) eq_refl)).
Defined.

(** X11. Lines 142-147.  Each of the five functions is bound to the symbol
    made of its name between "__" and "60"; the five symbols differ from
    each other and from the five names. *)
Theorem prototypes_renamed_to_versioned_symbols :
  (∀ f, f ∈ functions fts_prototypes →
        symbol f fts_prototypes = Some ("__" +:+ f +:+ "60"))
  ∧ NoDup (omap (λ f, symbol f fts_prototypes) (functions fts_prototypes))
  ∧ (∀ f g, f ∈ functions fts_prototypes →
            symbol g fts_prototypes ≠ Some f)
  ∧ ∀ f, f ∉ functions fts_prototypes → symbol f fts_prototypes = None.
Proof.
  assert (functions fts_prototypes =
            ["fts_children"; "fts_close"; "fts_open"; "fts_read"; "fts_set"])
    as -> by reflexivity.
  split; [|split; [|split]].
  - intros f. rewrite !elem_of_cons, elem_of_nil.
    intros [->|[->|[->|[->|[->|[]]]]]]; done.
  - by apply (bool_decide_unpack _).
  - intros f g. rewrite !elem_of_cons, elem_of_nil. intros Hf.
    cbn [symbol fts_prototypes].
    repeat match goal with
      | |- context [decide (?a = g)] =>
          destruct (decide (a = g)) as [?|?];
          [destruct Hf as [->|[->|[->|[->|[->|[]]]]]]; done|]
      end.
    done.
  - intros f. rewrite !elem_of_cons, elem_of_nil. intros Hf.
    cbn [symbol fts_prototypes].
    repeat match goal with
      | |- context [decide (?a = f)] =>
          destruct (decide (a = f)) as [?|?];
          [exfalso; apply Hf; subst f; intuition|]
      end.
    done.
Qed.

End FtsStructures.

Section FtsInclusion.

Local Open Scope Z_scope.

Implicit Types (t : gmap string macro) (tm : gmap string ctype).

Lemma foldl_ifndef_define_in_lookup (l : list (string * ctype)) : ∀ tm x,
  foldl ifndef_define_in tm l !! x =
    match tm !! x with
    | Some ty => Some ty
    | None => (list_to_map l : gmap string ctype) !! x
    end.
Proof.
  induction l as [|[y d] l IH]; intros tm x; cbn [foldl].
  - destruct (tm !! x); [done|]. symmetry. apply lookup_empty.
  - rewrite IH, list_to_map_cons. unfold ifndef_define_in. cbn [fst snd].
    destruct (decide (y = x)) as [->|Hne].
    + destruct (tm !! x) as [ty|] eqn:E.
      * by rewrite E.
      * by rewrite !lookup_insert_eq.
    + destruct (tm !! y); by rewrite !lookup_insert_ne.
Qed.

Lemma type_macro_defaults_NoDup : NoDup (map fst type_macro_defaults).
Proof. by apply (bool_decide_unpack _). Qed.

Lemma define_type_macros_lookup tm x :
  define_type_macros tm !! x =
    match tm !! x with
    | Some ty => Some ty
    | None => (list_to_map type_macro_defaults : gmap string ctype) !! x
    end.
Proof. apply foldl_ifndef_define_in_lookup. Qed.

Lemma define_type_macros_subseteq tm : tm ⊆ define_type_macros tm.
Proof.
  apply map_subseteq_spec. intros x ty Hx.
  by rewrite define_type_macros_lookup, Hx.
Qed.

Lemma define_type_macros_default tm x d :
  (x, d) ∈ type_macro_defaults →
  define_type_macros tm !! x = Some (default d (tm !! x)).
Proof.
  intros Hx. rewrite define_type_macros_lookup.
  destruct (tm !! x); [done|]. cbn [default].
  by apply elem_of_list_to_map_1; [apply type_macro_defaults_NoDup|].
Qed.

Lemma fts_h_define_type_macros tm b :
  fts_h (Config (define_type_macros tm) b) = fts_h (Config tm b).
Proof.
  assert (∀ x d, (x, d) ∈ type_macro_defaults →
            ifndef_define (Config (define_type_macros tm) b) x d
            = ifndef_define (Config tm b) x d) as Hi.
  { intros x d Hx. unfold ifndef_define. cbn [cfg_types].
    rewrite (define_type_macros_default tm x d Hx). by destruct (tm !! x). }
  unfold fts_h, FTSENT_members, fts_number_t, fts_length_t,
    fts_ino_t, fts_dev_t, fts_nlink_t, fts_level_t, fts_stat_t.
  rewrite !Hi
    by (unfold type_macro_defaults; rewrite !elem_of_cons; tauto).
  done.
Qed.

(** X12. Lines 37-57.  The block of [#ifndef]s only fills in: a type macro the
    includer has defined keeps its type, each of the seven that is not
    defined gets its default, other type macros are not touched, and
    reading the block again changes nothing.  The declarations read with
    the type macros as the block leaves them are those read with the
    defaults standing in for the undefined ones. *)
Theorem type_macros_only_filled_in tm :
  define_type_macros tm = tm ∪ list_to_map type_macro_defaults
  ∧ tm ⊆ define_type_macros tm
  ∧ (∀ x d, (x, d) ∈ type_macro_defaults →
       define_type_macros tm !! x = Some (default d (tm !! x)))
  ∧ (∀ x, x ∉ map fst type_macro_defaults →
       define_type_macros tm !! x = tm !! x)
  ∧ define_type_macros (define_type_macros tm) = define_type_macros tm
  ∧ ∀ b, fts_h (Config (define_type_macros tm) b) = fts_h (Config tm b).
Proof.
  split; [|split; [|split; [|split; [|split]]]].
  - apply map_eq. intros x. rewrite define_type_macros_lookup, lookup_union.
    by destruct (tm !! x), (list_to_map type_macro_defaults !! x).
  - apply define_type_macros_subseteq.
  - apply define_type_macros_default.
  - intros x Hx. rewrite define_type_macros_lookup.
    destruct (tm !! x); [done|]. by apply not_elem_of_list_to_map_1.
  - apply map_eq. intros x.
    rewrite (define_type_macros_lookup (define_type_macros tm)).
    destruct (define_type_macros tm !! x) eqn:E; [done|].
    rewrite define_type_macros_lookup in E. by destruct (tm !! x).
  - apply fts_h_define_type_macros.
Qed.

(** A [#define] that succeeds leaves a macro that was defined as it
    was. *)
Lemma pp_define_keeps t t' x m y k :
  pp_define y k t = Some t' → t !! x = Some m → t' !! x = Some m.
Proof.
  unfold pp_define. intros H Hx. destruct (decide (x = y)) as [->|Hne].
  - rewrite Hx in H. destruct (decide (m = k)); [|done]. by injection H as <-.
  - destruct (t !! y) as [m'|].
    + destruct (decide (m' = k)); [|done]. by injection H as <-.
    + injection H as <-. by rewrite lookup_insert_ne.
Qed.

Lemma define_constants_keeps (cs : list (string * Z)) : ∀ t t' x m,
  define_constants cs t = Some t' → t !! x = Some m → t' !! x = Some m.
Proof.
  induction cs as [|[y n] cs IH]; intros t t' x m; cbn [define_constants].
  - by intros [= <-].
  - destruct (pp_define y _ t) as [t1|] eqn:E; [|done].
    cbn [mbind option_bind]. intros H Hx.
    eapply IH; [exact H|]. by eapply pp_define_keeps.
Qed.





(** X14. The include guard.  After an inclusion that succeeded another one
    changes nothing, and neither does an inclusion into any unit in which
    [_FTS_H_] is still defined, whatever has become of the type macros,
    of [__LIBC12_SOURCE__] or of the constants: what the header declares
    is settled by its first inclusion. *)
Theorem fts_h_included_once (u u' : tunit) :
  fts_h_include u = Some u' →
  defined "_FTS_H_" (tu_macros u') = true
  ∧ fts_h_include u' = Some u'
  ∧ ∀ v, defined "_FTS_H_" (tu_macros v) = true → fts_h_include v = Some v.
Proof.
  intros Hinc.
  assert (∀ v, defined "_FTS_H_" (tu_macros v) = true →
            fts_h_include v = Some v) as Hv.
  { intros v Hg. unfold fts_h_include. by rewrite Hg. }
  assert (defined "_FTS_H_" (tu_macros u') = true) as Hg'.
  { revert Hinc. unfold fts_h_include.
    destruct (defined "_FTS_H_" (tu_macros u)) eqn:Hg.
    - by intros [= <-].
    - destruct (pp_define "_FTS_H_" _ _) as [t|] eqn:E; [|done].
      cbn [mbind option_bind].
      destruct (define_constants fts_constants t) as [t'|] eqn:E'; [|done].
      cbn [mbind option_bind]. intros [= <-]. cbn [tu_macros].
      apply defined_true. exists (MObj EEmpty).
      eapply define_constants_keeps; [exact E'|].
      by apply pp_define_Some in E as [? _]. }
  split; [done|]. split; [by apply Hv|done].
Qed.

(** X16. What the header needs from its includer.  It includes no header that
    declares types, and FTS is written with [dev_t] itself, so [dev_t] has
    to be declared before the inclusion however the type macros are set;
    with none of them set the typedef names needed are [dev_t], [int64_t],
    [ino_t] and [nlink_t].  The prototypes need no name but FTS and
    FTSENT, which the header has declared by then. *)
Theorem fts_h_needs_typedefs (cfg : config) :
  "dev_t" ∈ external_typedefs [] (fts_h cfg)
  ∧ external_typedefs [] [DTypedefStruct "FTS" None FTS_members] = ["dev_t"]
  ∧ (cfg_types cfg = ∅ →
     ∀ x, x ∈ external_typedefs [] (fts_h cfg)
          ↔ x ∈ ["dev_t"; "int64_t"; "ino_t"; "nlink_t"])
  ∧ external_typedefs ["FTSENT"; "FTS"] fts_prototypes = []
  ∧ (∃ x, x ∈ external_typedefs [] fts_prototypes).
Proof.
  split; [|split; [|split; [|split]]].
  - unfold fts_h. cbn [app external_typedefs]. apply elem_of_app. left.
    by apply (bool_decide_unpack _).
  - by vm_compute.
  - destruct cfg as [tm b]. cbn [cfg_types]. intros ->.
    assert (external_typedefs [] (fts_h (Config ∅ b)) =
              ["dev_t"; "int64_t"; "ino_t"; "dev_t"; "nlink_t"]) as ->
      by (destruct b; vm_compute; reflexivity).
    intros x. rewrite !elem_of_cons, !elem_of_nil. tauto.
  - by vm_compute.
  - exists "FTS". by apply (bool_decide_unpack _).
Qed.


(** Two inclusions, the second after [__LIBC12_SOURCE__] has been
    defined: the prototypes stay declared. *)
Lemma fts_h_included_once_witness :
  ∃ u', fts_h_include (TUnit ∅ ∅ []) = Some u'
        ∧ fts_h_include
            (TUnit (<["__LIBC12_SOURCE__" := MObj EEmpty]> (tu_macros u'))
               (tu_types u') (tu_decls u'))
          = Some (TUnit (<["__LIBC12_SOURCE__" := MObj EEmpty]> (tu_macros u'))
                    (tu_types u') (tu_decls u')).
Proof.
  destruct (fts_h_include (TUnit ∅ ∅ [])) as [u'|] eqn:E;
    [|vm_compute in E; discriminate].
  exists u'. split; [reflexivity|].
  destruct (fts_h_included_once _ _ E) as (Hg & _ & Hv).
  apply Hv. cbn [tu_macros]. unfold defined in *.
  rewrite lookup_insert_ne by done. exact Hg.
Defined.

End FtsInclusion.
